(** * Lynx: the ingestion cache, the format parsers and the index bootstrap

    A shallow embedding of [ingestion.py] and [main.py].  Python code that
    reads files, talks to the Mongo collection or raises is written in a
    state-and-exception monad over an explicit [world]; the third-party
    libraries (hashlib, pandas, json, BeautifulSoup, LlamaParse, the text
    splitter, Chroma and the chat agent) are the fields of one record of
    externals. *)

From stdpp Require Import gmap strings list fin_maps pretty.
From Stdlib Require Import ZArith Lia Ascii.

Local Open Scope Z_scope.

(** ** Python values *)

(** A Python [str] read from a file: a sequence of Unicode code points.
    Paths, digests and dictionary keys are plain [string]s. *)
Abbreviation pystr := (list Z).

Fixpoint lit (s : string) : pystr :=
  match s with
  | EmptyString => []
  | String a r => Z.of_N (Ascii.N_of_ascii a) :: lit r
  end.

Definition len {A} (l : list A) : Z := Z.of_nat (length l).

(** [s[:n]] for a Python int [n]. *)
Definition slice_to {A} (n : Z) (s : list A) : list A :=
  if 0 <=? n then take (Z.to_nat n) s else take (Z.to_nat (len s + n)) s.

Inductive pyval :=
  | VNone
  | VBool (b : bool)
  | VInt (z : Z)
  | VNum (t : Z)
  | VStr (s : string).

Abbreviation pydict := (gmap string pyval).

(** The exceptions the two modules can meet; all of them are subclasses of
    [Exception]. *)
Inductive exn :=
  | FileNotFoundError (path : string)
  | DuplicateKeyError
  | PyMongoError (msg : string)
  | ParserError (msg : string)
  | JSONDecodeError (msg : string)
  | ServiceError (msg : string)
  | IndexError_ (msg : string)
  | TypeError (msg : string)
  | ValueError (msg : string)
  | UnicodeDecodeError (msg : string).

Definition str_of_exn (e : exn) : string :=
  match e with
  | FileNotFoundError p => p
  | DuplicateKeyError => "E11000 duplicate key error"
  | PyMongoError m | ParserError m | JSONDecodeError m
  | ServiceError m | IndexError_ m | TypeError m
  | ValueError m | UnicodeDecodeError m => m
  end.

Inductive res (A : Type) :=
  | Ok (a : A)
  | Raise (e : exn).
Arguments Ok {A} a.
Arguments Raise {A} e.

(** ** The world *)

Record file := { f_bytes : list Z; f_mtime : Z }.

(** One document of the [parsed_files] collection (lines 46-54). *)
Record doc := {
  file_hash : string;
  file_path : string;
  file_size : Z;
  file_mtime : Z;
  md : pystr;
  meta : pydict;
  cached_at : Z
}.

(** One record of the vector index: the chunk text with its source file
    name, the document digest and the chunk number. *)
Record chunk := {
  c_text : pystr;
  c_source : string;
  c_file_hash : option pyval;
  c_chunk_id : Z
}.

Inductive event :=
  | EvFind (h : string)
  | EvInsert (h : string)
  | EvParsePdf (path : string)
  | EvReadCsv (path : string)
  | EvJsonLoad (path : string)
  | EvSoup (raw_len : Z)
  | EvRead (path : string) (n : Z)
  | EvParseFile (path : string)
  | EvSplit (text : pystr)
  | EvProbe
  | EvAddTexts (n : Z)
  | EvSearch (query : pystr)
  | EvCreateAgent
  | EvInvoke (prompt : pystr)
  | EvPrint (s : pystr).

(** [faults] is the availability of the Mongo server: every call to the
    collection consumes one entry, and [Some msg] makes that call raise a
    [PyMongoError] instead of running.  [probe_fault] does the same for the
    one call [vectordb.get()]. *)
Record world := {
  fs : gmap string file;
  coll : list doc;
  faults : list (option string);
  now : Z;
  index : list chunk;
  probe_fault : option string;
  log : list event
}.

Definition set_coll (c : list doc) (w : world) : world :=
  {| fs := fs w; coll := c; faults := faults w; now := now w;
     index := index w; probe_fault := probe_fault w; log := log w |}.
Definition set_faults (f : list (option string)) (w : world) : world :=
  {| fs := fs w; coll := coll w; faults := f; now := now w;
     index := index w; probe_fault := probe_fault w; log := log w |}.
Definition set_index (i : list chunk) (w : world) : world :=
  {| fs := fs w; coll := coll w; faults := faults w; now := now w;
     index := i; probe_fault := probe_fault w; log := log w |}.
Definition set_log (l : list event) (w : world) : world :=
  {| fs := fs w; coll := coll w; faults := faults w; now := now w;
     index := index w; probe_fault := probe_fault w; log := l |}.

(** ** The monad: state that survives an exception *)

Definition M (A : Type) : Type := world → res A * world.

Definition ret {A} (a : A) : M A := λ w, (Ok a, w).
Definition raise {A} (e : exn) : M A := λ w, (Raise e, w).
Definition bind {A B} (m : M A) (k : A → M B) : M B :=
  λ w, match m w with
       | (Ok a, w') => k a w'
       | (Raise e, w') => (Raise e, w')
       end.
(** [try: m except e: h e], for a handler that takes the exceptions [sel]
    selects. *)
Definition try_except {A} (sel : exn → bool) (m : M A) (h : exn → M A) : M A :=
  λ w, match m w with
       | (Ok a, w') => (Ok a, w')
       | (Raise e, w') => if sel e then h e w' else (Raise e, w')
       end.

#[global] Instance M_ret : MRet M := @ret.
#[global] Instance M_bind : MBind M := λ A B k m, bind m k.

Definition emit (e : event) : M unit := λ w, (Ok tt, set_log (log w ++ [e]) w).
Definition gets {A} (f : world → A) : M A := λ w, (Ok (f w), w).
Definition lift {A} (r : res A) : M A := λ w, (r, w).
Definition act {A} (f : world → res A * world) : M A := f.

Definition any_exception (e : exn) : bool := true.
Definition is_duplicate_key (e : exn) : bool :=
  match e with DuplicateKeyError => true | _ => false end.

(** ** Files *)

Definition is_cont (b : Z) : bool := (128 <=? b) && (b <=? 191).
Definition in_range (lo hi b : Z) : bool := (lo <=? b) && (b <=? hi).

Definition seq2 (b0 b1 : Z) : option Z :=
  if in_range 194 223 b0 && is_cont b1
  then Some ((b0 - 192) * 64 + (b1 - 128)) else None.

Definition seq3 (b0 b1 b2 : Z) : option Z :=
  if (((b0 =? 224) && in_range 160 191 b1)
      || ((in_range 225 236 b0 || in_range 238 239 b0) && is_cont b1)
      || ((b0 =? 237) && in_range 128 159 b1)) && is_cont b2
  then Some ((b0 - 224) * 4096 + (b1 - 128) * 64 + (b2 - 128)) else None.

Definition seq4 (b0 b1 b2 b3 : Z) : option Z :=
  if (((b0 =? 240) && in_range 144 191 b1)
      || (in_range 241 243 b0 && is_cont b1)
      || ((b0 =? 244) && in_range 128 143 b1)) && is_cont b2 && is_cont b3
  then Some ((b0 - 240) * 262144 + (b1 - 128) * 4096 + (b2 - 128) * 64 + (b3 - 128))
  else None.

(** [bytes.decode("utf-8", errors="ignore")]: a well-formed sequence gives
    its code point, any other byte is dropped. *)
Fixpoint utf8_ignore (bs : list Z) : pystr :=
  match bs with
  | [] => []
  | b0 :: r0 =>
    if b0 <? 128 then b0 :: utf8_ignore r0 else
    match r0 with
    | [] => []
    | b1 :: r1 =>
      match seq2 b0 b1 with
      | Some c => c :: utf8_ignore r1
      | None =>
        match r1 with
        | [] => utf8_ignore r0
        | b2 :: r2 =>
          match seq3 b0 b1 b2 with
          | Some c => c :: utf8_ignore r2
          | None =>
            match r2 with
            | [] => utf8_ignore r0
            | b3 :: r3 =>
              match seq4 b0 b1 b2 b3 with
              | Some c => c :: utf8_ignore r3
              | None => utf8_ignore r0
              end
            end
          end
        end
      end
    end
  end.

(** Text mode without a [newline] argument turns "\r\n" and "\r" into
    "\n". *)
Fixpoint universal_newlines (s : pystr) : pystr :=
  match s with
  | [] => []
  | 13 :: ((10 :: r) as r0) => 10 :: universal_newlines r
  | 13 :: r => 10 :: universal_newlines r
  | c :: r => c :: universal_newlines r
  end.

(** What [open(path, "r", encoding="utf-8", errors="ignore")] lets one
    read. *)
Definition text_of (f : file) : pystr := universal_newlines (utf8_ignore (f_bytes f)).

(** [f.read(n)] in text mode counts characters; a negative [n] reads to the
    end. *)
Definition read_chars (n : Z) (s : pystr) : pystr :=
  if n <? 0 then s else take (Z.to_nat n) s.

(** The number of bytes a code point takes in a UTF-8 file. *)
Definition utf8_width (c : Z) : Z :=
  if c <? 128 then 1 else if c <? 2048 then 2 else if c <? 65536 then 3 else 4.
Definition utf8_size (s : pystr) : Z := foldr (λ c n, utf8_width c + n) 0 s.

Definition exists_ (path : string) : M bool := gets (λ w, bool_decide (is_Some (fs w !! path))).

Definition open_ (path : string) : M file :=
  λ w, match fs w !! path with
       | Some f => (Ok f, w)
       | None => (Raise (FileNotFoundError path), w)
       end.

Definition read_text (path : string) (n : Z) : M pystr :=
  f ← open_ path; emit (EvRead path n);; mret (read_chars n (text_of f)).

Definition os_stat (path : string) : M (Z * Z) :=
  f ← open_ path; mret (len (f_bytes f), f_mtime f).

Definition time_time : M Z := gets now.

(** ** The Mongo collection *)

(** One round trip to the server. *)
Definition store_call {A} (op : M A) : M A :=
  λ w, match faults w with
       | Some msg :: r => (Raise (PyMongoError msg), set_faults r w)
       | None :: r => op (set_faults r w)
       | [] => op w
       end.

Definition has_hash (h : string) (d : doc) : bool := String.eqb (file_hash d) h.

(** [coll.find_one({"file_hash": h})]. *)
Definition find_one (h : string) : M (option doc) :=
  emit (EvFind h);; store_call (gets (λ w, List.find (has_hash h) (coll w))).

(** [coll.insert_one(d)] under the unique index on [file_hash] that line 24
    creates. *)
Definition insert_one (d : doc) : M unit :=
  emit (EvInsert (file_hash d));;
  store_call (act (λ w, if existsb (has_hash (file_hash d)) (coll w)
                        then (Raise DuplicateKeyError, w)
                        else (Ok tt, set_coll (coll w ++ [d]) w))).

Definition get_cached_parse (file_hash : string) : M (option doc) := find_one file_hash.

(** [meta or {}]. *)
Definition or_empty (meta : option pydict) : pydict := default ∅ meta.

(** ** The libraries *)

(** What [pd.read_csv] gives: the columns with their dtypes, the shape, and
    the two renderings of [df.head(n)]. *)
Record dataframe := {
  df_columns : list (pystr * pystr);
  df_rows : Z;
  df_to_markdown : Z → res pystr;
  df_to_json : Z → res pystr
}.

(** The library functions the two modules call.  [new_splitter size overlap]
    is the constructor [RecursiveCharacterTextSplitter(chunk_size=size,
    chunk_overlap=overlap)], which checks its arguments and can raise;
    [split_text size overlap] is the method [split_text] of the splitter it
    returns. *)
Record externals := {
  sha256 : list Z → string;
  abspath : string → string;
  llama_parse : string → list Z → res (list pystr);
  read_csv : string → list Z → res dataframe;
  json_pretty : pystr → res pystr;
  soup_get_text : pystr → res pystr;
  new_splitter : Z → Z → res unit;
  split_text : Z → Z → pystr → list pystr;
  os_walk : gmap string file → string → list (string * list string);
  similarity_search : list chunk → pystr → Z → res (list chunk);
  agent_invoke : pystr → res pystr
}.

(** ** Strings *)

Definition nl : pystr := [10].

(** [sep.join(parts)]. *)
Fixpoint join (sep : pystr) (parts : list pystr) : pystr :=
  match parts with
  | [] => []
  | [p] => p
  | p :: r => p ++ sep ++ join sep r
  end.

(** The line boundaries of [str.splitlines]. *)
Definition is_linebreak (c : Z) : bool :=
  in_range 10 13 c || in_range 28 30 c || (c =? 133) || (c =? 8232) || (c =? 8233).

Fixpoint splitlines_from (cur s : pystr) : list pystr :=
  match s with
  | [] => match cur with [] => [] | _ => [cur] end
  | 13 :: ((10 :: r) as r0) => cur :: splitlines_from [] r
  | c :: r =>
    if is_linebreak c then cur :: splitlines_from [] r
    else splitlines_from (cur ++ [c]) r
  end.
Definition splitlines (s : pystr) : list pystr := splitlines_from [] s.

(** The characters [str.strip()] removes. *)
Definition is_space (c : Z) : bool :=
  in_range 9 13 c || in_range 28 32 c || (c =? 133) || (c =? 160) || (c =? 5760)
  || in_range 8192 8202 c || (c =? 8232) || (c =? 8233) || (c =? 8239)
  || (c =? 8287) || (c =? 12288).

Fixpoint lstrip (s : pystr) : pystr :=
  match s with
  | c :: r => if is_space c then lstrip r else s
  | [] => []
  end.
Definition strip (s : pystr) : pystr := reverse (lstrip (reverse (lstrip s))).

Definition nonempty {A} (l : list A) : bool := match l with [] => false | _ => true end.

(** ** Paths *)

Definition chars (s : string) : list ascii := String.list_ascii_of_string s.
Definition unchars (l : list ascii) : string := String.string_of_list_ascii l.

Definition is_char (c : ascii) (a : ascii) : bool := Ascii.eqb a c.

(** [p.rfind(c)], -1 when [c] does not occur. *)
Fixpoint rfind_from (c : ascii) (i : Z) (p : list ascii) (best : Z) : Z :=
  match p with
  | [] => best
  | a :: r => rfind_from c (i + 1) r (if is_char c a then i else best)
  end.
Definition rfind (c : ascii) (p : list ascii) : Z := rfind_from c 0 p (-1).

(** The second component of [os.path.splitext(p)]: the loop of
    [genericpath._splitext] looks for a character that is not a dot between
    the last separator and the last dot. *)
Definition splitext_ext (p : string) : string :=
  let l := chars p in
  let sepIndex := rfind "/" l in
  let dotIndex := rfind "." l in
  if sepIndex <? dotIndex then
    let between := take (Z.to_nat (dotIndex - (sepIndex + 1))) (drop (Z.to_nat (sepIndex + 1)) l) in
    if existsb (λ a, negb (is_char "." a)) between
    then unchars (drop (Z.to_nat dotIndex) l)
    else ""
  else "".

Definition lower_ascii (a : ascii) : ascii :=
  let n := Ascii.N_of_ascii a in
  if ((65 <=? n) && (n <=? 90))%N then Ascii.ascii_of_N (n + 32) else a.
Definition lower (s : string) : string := unchars (map lower_ascii (chars s)).

(** [os.path.join(a, b)] on POSIX. *)
Definition path_join (a b : string) : string :=
  match chars b with
  | "/"%char :: _ => b
  | _ => match reverse (chars a) with
         | [] => b
         | "/"%char :: _ => a +:+ b
         | _ => a +:+ "/" +:+ b
         end
  end.

Definition startswith_dot (s : string) : bool :=
  match s with String "." _ => true | _ => false end.

(** ** ingestion.py *)

Section Ingestion.
Context (X : externals).

(** Reading 8192 bytes at a time feeds the digest the bytes of the
    file. *)
Definition sha256_of_file (path : string) : M string :=
  f ← open_ path; mret (sha256 X (f_bytes f)).

Definition upsert_parsed_doc (path hash : string) (text : pystr)
    (meta0 : option pydict) : M doc :=
  st ← os_stat path;
  t ← time_time;
  let d := {| file_hash := hash; file_path := abspath X path;
              file_size := st.1; file_mtime := st.2; md := text;
              meta := or_empty meta0; cached_at := t |} in
  try_except is_duplicate_key
    (insert_one d;; mret d)
    (λ _, cached ← get_cached_parse hash;
          mret (match cached with Some c => c | None => d end)).

Definition upsert (path hash : string) (text : pystr) (meta0 : pydict) : M doc :=
  upsert_parsed_doc path hash text (Some meta0).

(** Run [m] and hand its outcome to the code after the [try]. *)
Definition attempt {A} (m : M A) : M (res A) :=
  λ w, let '(r, w') := m w in (Ok r, w').

(** The cache check each of the four parsers starts with: [Some] is the
    early return. *)
Definition cache_hit (use_cache : bool) (hash : string) : M (option (pystr * pydict)) :=
  if use_cache then
    cached ← get_cached_parse hash;
    match cached with
    | Some c => mret (Some (md c, {[ "cached" := VBool true;
                                     "file_hash" := VStr hash;
                                     "cached_at" := VNum (cached_at c) ]}))
    | None => mret None
    end
  else mret None.

Definition parse_pdf_document (pdf_path : string) (use_cache : bool) : M (pystr * pydict) :=
  ex ← exists_ pdf_path;
  if negb ex then raise (FileNotFoundError pdf_path) else
  hash ← sha256_of_file pdf_path;
  hit ← cache_hit use_cache hash;
  match hit with
  | Some r => mret r
  | None =>
    f ← open_ pdf_path;
    emit (EvParsePdf pdf_path);;
    pages ← lift (llama_parse X pdf_path (f_bytes f));
    let result_md := join (nl ++ nl) pages in
    stored ← upsert pdf_path hash result_md
               {[ "type" := VStr "pdf"; "pages" := VInt (len pages) ]};
    mret (md stored, {[ "cached" := VBool false; "file_hash" := VStr hash;
                        "stored_at" := VNum (cached_at stored) ]})
  end.

Definition fence : pystr := lit "```".

Definition schema_line (col : pystr * pystr) : pystr :=
  lit "- **" ++ col.1 ++ lit "**: " ++ col.2.

Definition parse_csv_document (csv_path : string) (use_cache : bool)
    (max_rows_preview : Z) : M (pystr * pydict) :=
  ex ← exists_ csv_path;
  if negb ex then raise (FileNotFoundError csv_path) else
  hash ← sha256_of_file csv_path;
  hit ← cache_hit use_cache hash;
  match hit with
  | Some r => mret r
  | None =>
    r ← attempt (f ← open_ csv_path; emit (EvReadCsv csv_path);;
                 lift (read_csv X csv_path (f_bytes f)));
    match r with
    | Raise e =>
      text ← read_text csv_path 100000;
      let md0 := fence ++ nl ++ text ++ nl ++ fence in
      stored ← upsert csv_path hash md0
                 {[ "type" := VStr "csv"; "error" := VStr (str_of_exn e) ]};
      mret (md stored, {[ "cached" := VBool false; "file_hash" := VStr hash ]})
    | Ok df =>
      let schema_lines := map schema_line (df_columns df) in
      let head := lit "### Schema" ++ nl ++ nl ++ join nl schema_lines
                  ++ nl ++ nl ++ lit "### Preview (first rows)" ++ nl ++ nl in
      table ← match df_to_markdown df max_rows_preview with
              | Ok t => mret t
              | Raise _ => lift (df_to_json df max_rows_preview)
              end;
      stored ← upsert csv_path hash (head ++ table)
                 {[ "type" := VStr "csv"; "rows" := VInt (df_rows df);
                    "cols" := VInt (len (df_columns df)) ]};
      mret (md stored, {[ "cached" := VBool false; "file_hash" := VStr hash;
                          "rows" := VInt (df_rows df) ]})
    end
  end.

Definition truncated_marker : pystr := nl ++ lit "...truncated".

(** Lines 159-161: the raw snippet a malformed JSON file falls back to. *)
Definition json_fallback (max_chars : Z) (text : pystr) : pystr :=
  let pretty := read_chars max_chars text in
  slice_to max_chars pretty
    ++ (if len pretty =? max_chars then truncated_marker else []).

Definition parse_json_document (json_path : string) (use_cache : bool)
    (max_chars : Z) : M (pystr * pydict) :=
  ex ← exists_ json_path;
  if negb ex then raise (FileNotFoundError json_path) else
  hash ← sha256_of_file json_path;
  hit ← cache_hit use_cache hash;
  match hit with
  | Some r => mret r
  | None =>
    f ← open_ json_path;
    emit (EvJsonLoad json_path);;
    pretty ← match json_pretty X (text_of f) with
             | Ok p => mret p
             | Raise _ => emit (EvRead json_path max_chars);;
                          mret (json_fallback max_chars (text_of f))
             end;
    let md0 := lit "```json" ++ nl ++ pretty ++ nl ++ fence in
    stored ← upsert json_path hash md0 {[ "type" := VStr "json" ]};
    mret (md stored, {[ "cached" := VBool false; "file_hash" := VStr hash ]})
  end.

(** Lines 189-191. *)
Definition html_clean (max_chars : Z) (text : pystr) : pystr :=
  let lines := map strip (filter (λ ln, nonempty (strip ln) = true) (splitlines text)) in
  let text_clean := join (nl ++ nl) lines in
  if len text_clean <=? max_chars then text_clean
  else slice_to max_chars text_clean ++ nl ++ truncated_marker.

Definition parse_html_document (html_path : string) (use_cache : bool)
    (max_chars : Z) : M (pystr * pydict) :=
  ex ← exists_ html_path;
  if negb ex then raise (FileNotFoundError html_path) else
  hash ← sha256_of_file html_path;
  hit ← cache_hit use_cache hash;
  match hit with
  | Some r => mret r
  | None =>
    raw ← read_text html_path max_chars;
    emit (EvSoup (len raw));;
    text ← lift (soup_get_text X raw);
    stored ← upsert html_path hash (html_clean max_chars text) {[ "type" := VStr "html" ]};
    mret (md stored, {[ "cached" := VBool false; "file_hash" := VStr hash ]})
  end.

Definition parse_file_by_type (path : string) (use_cache : bool) : M (pystr * pydict) :=
  let ext := lower (splitext_ext path) in
  if String.eqb ext ".pdf" then parse_pdf_document path use_cache
  else if String.eqb ext ".csv" then parse_csv_document path use_cache 500
  else if String.eqb ext ".json" then parse_json_document path use_cache 200000
  else if String.eqb ext ".html" || String.eqb ext ".htm"
    then parse_html_document path use_cache 200000
  else
    text ← read_text path 200000;
    hash ← sha256_of_file path;
    stored ← upsert path hash text {[ "type" := VStr "txt_or_other" ]};
    mret (md stored, {[ "cached" := VBool false; "file_hash" := VStr hash ]}).

End Ingestion.

(** ** main.py *)

Record config := {
  INPUT_DIR : string;
  VECTORDB_DIR : string;
  TOP_K : Z;
  CHUNK_SIZE : Z;
  CHUNK_OVERLAP : Z
}.

(** [vectordb.get()["metadatas"]]. *)
Definition vectordb_get : M (list chunk) :=
  emit EvProbe;;
  act (λ w, match probe_fault w with
            | Some msg => (Raise (IndexError_ msg), w)
            | None => (Ok (index w), w)
            end).

Definition add_texts (recs : list chunk) : M unit :=
  emit (EvAddTexts (len recs));; act (λ w, (Ok tt, set_index (index w ++ recs) w)).

(** Calling a Python function of one positional parameter. *)
Definition call1 {A B} (name : string) (f : A → M B) (args : list A) : M B :=
  match args with
  | [a] => f a
  | _ => raise (TypeError (name +:+ "() takes 1 positional argument but "
                           +:+ pretty (length args) +:+ " were given"))
  end.

Section Main.
Context (X : externals) (C : config).

(** Lines 63-65. *)
Definition chunk_records (fname : string) (meta0 : pydict) (chunks : list pystr) : list chunk :=
  imap (λ i c, {| c_text := c; c_source := fname;
                  c_file_hash := meta0 !! "file_hash";
                  c_chunk_id := Z.of_nat i |}) chunks.

(** The inner loop, lines 51-65. *)
Fixpoint ingest_files (root : string) (files : list string) (acc : list chunk)
    : M (list chunk) :=
  match files with
  | [] => mret acc
  | fname :: rest =>
    if startswith_dot fname then ingest_files root rest acc else
    let path := path_join root fname in
    r ← attempt (emit (EvParseFile path);; parse_file_by_type X path true);
    match r with
    | Raise _ => ingest_files root rest acc
    | Ok (text, meta0) =>
      emit (EvSplit text);;
      let chunks := split_text X (CHUNK_SIZE C) (CHUNK_OVERLAP C) text in
      ingest_files root rest (acc ++ chunk_records fname meta0 chunks)
    end
  end.

(** The outer loop, line 50. *)
Fixpoint ingest_walk (dirs : list (string * list string)) (acc : list chunk)
    : M (list chunk) :=
  match dirs with
  | [] => mret acc
  | (root, files) :: rest =>
    acc' ← ingest_files root files acc; ingest_walk rest acc'
  end.

(** Lines 40-43. *)
Definition has_content : M bool :=
  try_except any_exception
    (ms ← vectordb_get; mret (0 <? len ms))
    (λ _, mret false).

(** Lines 31-69.  The splitter is constructed at line 46, inside the
    [if not has_content] and outside every [try]: what its constructor
    raises leaves the function. *)
Definition build_or_load_vectorstore (input_dir : string) : M unit :=
  content ← has_content;
  if negb content then
    lift (new_splitter X (CHUNK_SIZE C) (CHUNK_OVERLAP C));;
    tree ← gets fs;
    recs ← ingest_walk (os_walk X tree input_dir) [];
    if nonempty recs then add_texts recs else mret tt
  else mret tt.

Definition snippet (char_limit_per_chunk : Z) (d : chunk) : pystr :=
  let text := strip (c_text d) in
  let text := if char_limit_per_chunk <? len text
              then slice_to char_limit_per_chunk text ++ nl ++ nl ++ lit "...[truncated]"
              else text in
  lit "--- CONTEXT (file: " ++ lit (c_source d) ++ lit ", chunk: "
    ++ lit (pretty (c_chunk_id d)) ++ lit ") ---" ++ nl ++ text ++ nl.

Definition build_context_snippets (retrieved : list chunk) (char_limit_per_chunk : Z) : pystr :=
  join nl (map (snippet char_limit_per_chunk) retrieved).

Definition prompt_of (context query : pystr) : pystr :=
  lit "CONTEXT:" ++ nl ++ nl ++ context ++ nl ++ nl ++ lit "User question: " ++ query
    ++ nl ++ nl ++ lit "Answer concisely and cite sources.".

Definition not_found : pystr := lit "Data not found!".

(** The body of the [try] of lines 105-131, for the line the user
    types. *)
Definition ask (line : pystr) : M unit :=
  emit (EvPrint (lit "Please Enter the user query below..." ++ nl ++ lit "> "));;
  let query := strip line in
  if negb (nonempty query) then emit (EvPrint (lit "No query provided. Exiting.")) else
  emit (EvSearch query);;
  results ← act (λ w, (similarity_search X (index w) query (TOP_K C), w));
  if negb (nonempty results) then emit (EvPrint not_found) else
  let context := build_context_snippets results 2000 in
  emit (EvPrint (lit "context for the query :  " ++ query));;
  let prompt := prompt_of context query in
  emit (EvInvoke prompt);;
  answer ← lift (agent_invoke X prompt);
  emit (EvPrint answer).

(** Lines 105-135. *)
Definition query_phase (line : pystr) : M unit :=
  try_except any_exception (ask line)
    (λ e, emit (EvPrint (lit "Error during query:"));;
          emit (EvPrint (lit (str_of_exn e)))).

Definition main (line : pystr) : M unit :=
  emit (EvPrint (lit "[start] building/loading vectorstore..."));;
  r ← attempt (call1 "build_or_load_vectorstore" build_or_load_vectorstore
                 [INPUT_DIR C; VECTORDB_DIR C]);
  match r with
  | Raise e => emit (EvPrint (lit "Vectorstore init failed: " ++ lit (str_of_exn e)))
  | Ok _ => emit EvCreateAgent;; query_phase line
  end.

End Main.

(** * Predicates of the properties *)

(** What a computation leaves in the collection. *)
Definition coll_inv {A} (I : list doc → Prop) (m : M A) : Prop :=
  ∀ w, I (coll w) → I (coll (m w).2).

(** The metadata of a record. *)
Definition type_tags : list string := ["pdf"; "csv"; "json"; "html"; "txt_or_other"].

Definition has_type (m : pydict) : bool :=
  match m !! "type" with
  | Some (VStr t) => existsb (String.eqb t) type_tags
  | _ => false
  end.

Definition all_typed (c : list doc) : Prop := Forall (λ d, has_type (meta d) = true) c.

(** The unique index of line 24, as a property of the collection. *)
Definition unique_hashes (c : list doc) : Prop := NoDup (map file_hash c).

(** The Mongo server answers every call that is still to come. *)
Definition server_up (w : world) : Prop := Forall (λ f, f = None) (faults w).

(** The world after one answered round trip. *)
Definition served (w : world) : world := set_faults (tail (faults w)) w.

(** The states of the collection this subsystem can produce: it starts
    empty, the environment (files, clock, server, index) moves freely, and
    records come in through the parsers only. *)
Inductive reachable (X : externals) : world → Prop :=
  | reach_empty w : coll w = [] → reachable X w
  | reach_env w w' : reachable X w → coll w' = coll w → reachable X w'
  | reach_pdf w path uc :
      reachable X w → reachable X (parse_pdf_document X path uc w).2
  | reach_csv w path uc n :
      reachable X w → reachable X (parse_csv_document X path uc n w).2
  | reach_json w path uc n :
      reachable X w → reachable X (parse_json_document X path uc n w).2
  | reach_html w path uc n :
      reachable X w → reachable X (parse_html_document X path uc n w).2
  | reach_dispatch w path uc :
      reachable X w → reachable X (parse_file_by_type X path uc w).2
  | reach_bootstrap w C dir :
      reachable X w → reachable X (build_or_load_vectorstore X C dir w).2.

(** No record of the collection has the digest [h]. *)
Definition fresh (h : string) (w : world) : Prop :=
  existsb (has_hash h) (coll w) = false.

(** The world after an answered [find_one] and after a successful
    [insert_one]. *)
Definition looked_up (h : string) (w : world) : world :=
  served (set_log (log w ++ [EvFind h]) w).
Definition inserted (d : doc) (w : world) : world :=
  set_coll (coll w ++ [d]) (served (set_log (log w ++ [EvInsert (file_hash d)]) w)).

(** The document lines 46-54 build for the file [f] at time [t]. *)
Definition new_doc (X : externals) (path hash : string) (text : pystr)
    (meta0 : option pydict) (f : file) (t : Z) : doc :=
  {| file_hash := hash; file_path := abspath X path; file_size := len (f_bytes f);
     file_mtime := f_mtime f; md := text; meta := or_empty meta0; cached_at := t |}.

(** The world after the cache check of a parser that found nothing. *)
Definition missed (use_cache : bool) (h : string) (w : world) : world :=
  if use_cache then looked_up h w else w.

Definition not_cached (h : string) : pydict :=
  {[ "cached" := VBool false; "file_hash" := VStr h ]}.

(** The normalized text a parser returns, without the status. *)
Definition text_of_result (r : res (pystr * pydict)) : res pystr :=
  match r with
  | Ok (t, _) => Ok t
  | Raise e => Raise e
  end.

(** The status a cache hit returns (lines 80, 112, 151 and 179). *)
Definition cached_status (h : string) (c : doc) : pydict :=
  {[ "cached" := VBool true; "file_hash" := VStr h; "cached_at" := VNum (cached_at c) ]}.

(** The extensions [parse_file_by_type] sends to one of the four parsers. *)
Definition parser_extensions : list string := [".pdf"; ".csv"; ".json"; ".html"; ".htm"].

(** Between [w] and [w'] the server answered every call it got: the calls
    used up entries of the schedule that are all [None]. *)
Definition answered (w w' : world) : Prop :=
  ∃ k, faults w = replicate k None ++ faults w'.

(** Between [w] and [w'] the server refused a call with [msg], after any
    number of calls it answered, and got no call after that one. *)
Definition refused (msg : string) (w w' : world) : Prop :=
  ∃ k, faults w = replicate k None ++ Some msg :: faults w'.

(** A call the server refuses is the last thing the computation does: it
    raises the error of the refusal. *)
Definition surfaces {A} (m : M A) : Prop :=
  ∀ w, answered w (m w).2
       ∨ ∃ msg, refused msg w (m w).2 ∧ (m w).1 = Raise (PyMongoError msg).

(** * A small installation, for the examples *)

(** Stands in for SHA-256 in the examples: any function of the bytes will
    do there. *)
Definition demo_digest (bs : list Z) : string :=
  "d" +:+ pretty (len bs) +:+ "-" +:+ pretty (foldr Z.add 0 bs).

(** The constructor of the splitter refuses a chunk size that is not
    positive, a negative overlap and an overlap larger than the chunk
    size. *)
Definition demo_new_splitter (chunk_size chunk_overlap : Z) : res unit :=
  if chunk_size <=? 0
  then Raise (ValueError ("chunk_size must be > 0, got " +:+ pretty chunk_size))
  else if chunk_overlap <? 0
  then Raise (ValueError ("chunk_overlap must be >= 0, got " +:+ pretty chunk_overlap))
  else if chunk_size <? chunk_overlap
  then Raise (ValueError ("Got a larger chunk overlap (" +:+ pretty chunk_overlap
                            +:+ ") than chunk size (" +:+ pretty chunk_size
                            +:+ "), should be smaller."))
  else Ok tt.

(** pandas and json reject every file, BeautifulSoup returns the text as it
    is, the splitter makes one chunk of a text that is not empty, the index
    returns its first [k] records. *)
Definition demo_X : externals := {|
  sha256 := demo_digest;
  abspath := λ p, "/srv/" +:+ p;
  llama_parse := λ _ _, Ok [lit "page one"; lit "page two"];
  read_csv := λ _ _, Raise (ParserError "Error tokenizing data");
  json_pretty := λ _, Raise (JSONDecodeError "Expecting value");
  soup_get_text := λ raw, Ok raw;
  new_splitter := demo_new_splitter;
  split_text := λ _ _ t, if nonempty t then [t] else [];
  os_walk := λ _ d, [(d, ["notes.txt"; ".hidden"; "t.csv"])];
  similarity_search := λ idx _ k, Ok (take (Z.to_nat k) idx);
  agent_invoke := λ _, Ok (lit "answer")
|}.

Definition demo_C : config := {|
  INPUT_DIR := "in"; VECTORDB_DIR := "vectordb"; TOP_K := 5;
  CHUNK_SIZE := 800; CHUNK_OVERLAP := 100
|}.

(** "hi" and a copy of it, "a,é\n", "{oops" and two pages that differ
    after their third character. *)
Definition demo_fs : gmap string file :=
  {[ "in/notes.txt" := {| f_bytes := [104; 105]; f_mtime := 7 |};
     "in/copy.txt" := {| f_bytes := [104; 105]; f_mtime := 12 |};
     "in/t.csv" := {| f_bytes := [97; 44; 195; 169; 10]; f_mtime := 8 |};
     "in/bad.json" := {| f_bytes := [123; 111; 111; 112; 115]; f_mtime := 9 |};
     "in/p.html" := {| f_bytes := [97; 98; 99; 100]; f_mtime := 10 |};
     "in/q.html" := {| f_bytes := [97; 98; 99; 101; 102]; f_mtime := 11 |} ]}.

Definition demo_world : world := {|
  fs := demo_fs; coll := []; faults := []; now := 100;
  index := []; probe_fault := None; log := []
|}.

(** The same installation while the Mongo server refuses its next call. *)
Definition demo_world_refusing : world :=
  set_faults [Some "connection refused"] demo_world.

(** The server answers the next call and refuses the one after it: for a
    file that has a parser, the lookup of the cache check and the
    insert. *)
Definition demo_world_insert_refused : world :=
  set_faults [None; Some "connection refused"] demo_world.

(** An index that holds a record and whose probe raises. *)
Definition demo_world_unprobed : world := {|
  fs := demo_fs; coll := []; faults := []; now := 100;
  index := [{| c_text := lit "old"; c_source := "a.txt";
               c_file_hash := Some (VStr "d3-1"); c_chunk_id := 0 |}];
  probe_fault := Some "no such table: collections"; log := []
|}.

(** The paths handed to [parse_file_by_type] by the loop of the bootstrap,
    as the log has them. *)
Definition parsed_files (l : list event) : list string :=
  omap (λ e, match e with EvParseFile p => Some p | _ => None end) l.

(** The libraries of [demo_X], with the error pandas has for a file whose
    first byte is 0xFF: it decodes the file as UTF-8, and no character
    starts with that byte. *)
Definition legacy_X : externals := {|
  sha256 := sha256 demo_X;
  abspath := abspath demo_X;
  llama_parse := llama_parse demo_X;
  read_csv := λ path bs,
    match bs with
    | 255 :: _ =>
      Raise (UnicodeDecodeError
               "'utf-8' codec can't decode byte 0xff in position 0: invalid start byte")
    | _ => read_csv demo_X path bs
    end;
  json_pretty := json_pretty demo_X;
  soup_get_text := soup_get_text demo_X;
  new_splitter := new_splitter demo_X;
  split_text := split_text demo_X;
  os_walk := os_walk demo_X;
  similarity_search := similarity_search demo_X;
  agent_invoke := agent_invoke demo_X
|}.

(** A CSV file of the byte 0xFF and the four bytes of "a,b\n". *)
Definition legacy_world : world := {|
  fs := {[ "in/legacy.csv" := {| f_bytes := [255; 97; 44; 98; 10]; f_mtime := 3 |} ]};
  coll := []; faults := []; now := 100;
  index := []; probe_fault := None; log := []
|}.

(** A CSV file of the byte 0xFF and 50001 times the two bytes of "é". *)
Definition wide_bytes : list Z := 255 :: mjoin (replicate (Z.to_nat 50001) [195; 169]).
Definition wide_world : world := {|
  fs := {[ "in/wide.csv" := {| f_bytes := wide_bytes; f_mtime := 1 |} ]};
  coll := []; faults := []; now := 100;
  index := []; probe_fault := None; log := []
|}.

(** The installation once "in/notes.txt" has been ingested. *)
Definition demo_world_cached : world :=
  (parse_file_by_type demo_X "in/notes.txt" true demo_world).2.

(** * Several writers *)

(** [upsert_parsed_doc] cut at its round trips to the server, between which
    the calls of other processes can run: the document is built, the insert
    is sent, and after a duplicate key the collection is read again. *)
Inductive proc :=
  | Calling (path hash : string) (text : pystr) (meta0 : option pydict)
  | Inserting (d : doc)
  | Rereading (d : doc)
  | Returned (r : res doc).

Definition proc_step (X : externals) (p : proc) (w : world) : proc * world :=
  match p with
  | Calling path hash text meta0 =>
    match (st ← os_stat path; t ← time_time;
           mret {| file_hash := hash; file_path := abspath X path;
                   file_size := st.1; file_mtime := st.2; md := text;
                   meta := or_empty meta0; cached_at := t |}) w with
    | (Ok d, w') => (Inserting d, w')
    | (Raise e, w') => (Returned (Raise e), w')
    end
  | Inserting d =>
    match insert_one d w with
    | (Ok _, w') => (Returned (Ok d), w')
    | (Raise e, w') =>
      if is_duplicate_key e then (Rereading d, w') else (Returned (Raise e), w')
    end
  | Rereading d =>
    match get_cached_parse (file_hash d) w with
    | (Ok cached, w') =>
      (Returned (Ok (match cached with Some c => c | None => d end)), w')
    | (Raise e, w') => (Returned (Raise e), w')
    end
  | Returned r => (p, w)
  end.

(** The processes share the world; [sys_step i] lets process [i] make its
    next round trip. *)
Definition sys_step (X : externals) (i : nat) (s : list proc * world) : list proc * world :=
  match s.1 !! i with
  | Some p => let '(p', w') := proc_step X p s.2 in (<[i := p']> s.1, w')
  | None => s
  end.

Definition run (X : externals) (sched : list nat) (s : list proc * world) : list proc * world :=
  foldl (λ s i, sys_step X i s) s sched.

(** What holds of a process that writes the digest [hash]. *)
Definition proc_ok (hash : string) (w : world) (p : proc) : Prop :=
  match p with
  | Calling _ h _ _ => h = hash
  | Inserting d => file_hash d = hash
  | Rereading d => file_hash d = hash ∧ ∃ c, c ∈ coll w ∧ file_hash c = hash
  | Returned (Ok d) => file_hash d = hash ∧ d ∈ coll w
  | Returned (Raise _) => True
  end.

Definition sys_ok (hash : string) (s : list proc * world) : Prop :=
  unique_hashes (coll s.2) ∧ Forall (proc_ok hash s.2) s.1.

(** * Predicates of the further properties *)

(** The installation once the page "in/p.html" has been ingested. *)
Definition demo_world_paged : world :=
  (parse_file_by_type demo_X "in/p.html" true demo_world).2.

(** A property of the world that a computation keeps. *)
Definition winv {A} (I : world → Prop) (m : M A) : Prop :=
  ∀ w, I w → I (m w).2.

(** What holds of the value and the world when a computation that started
    under [P] returns normally. *)
Definition ensures {A} (P : world → Prop) (m : M A) (Q : A → world → Prop) : Prop :=
  ∀ w, P w → match m w with
             | (Ok a, w') => Q a w'
             | (Raise _, _) => True
             end.

(** The result [r] of a parser is the text of the record that the lookup of
    the digest of the file at [path] selects in [w'], and its status names
    that digest. *)
Definition cached_as (X : externals) (tree : gmap string file) (path : string)
    (r : pystr * pydict) (w' : world) : Prop :=
  ∃ f d, tree !! path = Some f
    ∧ r.2 !! "file_hash" = Some (VStr (sha256 X (f_bytes f)))
    ∧ List.find (has_hash (sha256 X (f_bytes f))) (coll w') = Some d
    ∧ md d = r.1.

(** The index record [r] belongs to a document of the collection [c]: it
    carries the digest of a record that the lookup selects, its text is the
    chunk number [c_chunk_id r] of the split of that record's [md], and its
    source is not a dot file. *)
Definition backed (X : externals) (C : config) (c : list doc) (r : chunk) : Prop :=
  ∃ h d, c_file_hash r = Some (VStr h)
    ∧ List.find (has_hash h) c = Some d
    ∧ 0 ≤ c_chunk_id r
    ∧ split_text X (CHUNK_SIZE C) (CHUNK_OVERLAP C) (md d) !! Z.to_nat (c_chunk_id r)
      = Some (c_text r)
    ∧ startswith_dot (c_source r) = false.

(** A second set of libraries: the extraction service is down, pandas reads
    a table of three rows and two columns but has no markdown renderer, and
    json accepts every file. *)
Definition demo_df : dataframe := {|
  df_columns := [(lit "a", lit "int64"); (lit "b", lit "object")];
  df_rows := 3;
  df_to_markdown := λ _, Raise (TypeError "Missing optional dependency 'tabulate'");
  df_to_json := λ _, Ok (lit "[]")
|}.

Definition demo_X2 : externals := {|
  sha256 := demo_digest;
  abspath := λ p, "/srv/" +:+ p;
  llama_parse := λ _ _, Raise (ServiceError "503");
  read_csv := λ _ _, Ok demo_df;
  json_pretty := λ t, Ok t;
  soup_get_text := λ raw, Ok raw;
  new_splitter := demo_new_splitter;
  split_text := λ _ _ t, if nonempty t then [t] else [];
  os_walk := λ _ d, [(d, [".gitkeep"]); (d +:+ "/sub", [])];
  similarity_search := λ idx _ k, Raise (IndexError_ "collection is gone");
  agent_invoke := λ _, Raise (ServiceError "model not loaded")
|}.

(** A page of two lines, "a" and "b". *)
Definition two_lines_world : world := {|
  fs := {[ "in/two.html" := {| f_bytes := [97; 10; 98]; f_mtime := 2 |} ]};
  coll := []; faults := []; now := 100;
  index := []; probe_fault := None; log := []
|}.

Definition is_invoke (e : event) : bool :=
  match e with EvInvoke _ => true | _ => false end.
(** * Properties *)

(** ** What a computation leaves in the collection *)

Lemma coll_inv_ret {A} I (a : A) : coll_inv I (mret a).
Proof. by intros w H. Qed.

Lemma coll_inv_raise {A} I e : coll_inv I (raise (A:=A) e).
Proof. by intros w H. Qed.

Lemma coll_inv_lift {A} I (r : res A) : coll_inv I (lift r).
Proof. by intros w H. Qed.

Lemma coll_inv_gets {A} I (f : world → A) : coll_inv I (gets f).
Proof. by intros w H. Qed.

Lemma coll_inv_emit I e : coll_inv I (emit e).
Proof. by intros w H. Qed.

Lemma coll_inv_bind {A B} I (m : M A) (k : A → M B) :
  coll_inv I m → (∀ a, coll_inv I (k a)) → coll_inv I (m ≫= k).
Proof.
  intros Hm Hk w H. unfold mbind, M_bind, bind.
  specialize (Hm w H). destruct (m w) as [[a|e] w']; simpl in *; [|done].
  by apply Hk.
Qed.

Lemma coll_inv_try {A} I sel (m : M A) h :
  coll_inv I m → (∀ e, coll_inv I (h e)) → coll_inv I (try_except sel m h).
Proof.
  intros Hm Hh w H. unfold try_except.
  specialize (Hm w H). destruct (m w) as [[a|e] w']; simpl in *; [done|].
  destruct (sel e); [by apply Hh | done].
Qed.

Lemma coll_inv_attempt {A} I (m : M A) : coll_inv I m → coll_inv I (attempt m).
Proof.
  intros Hm w H. unfold attempt. specialize (Hm w H).
  by destruct (m w) as [r w'].
Qed.

Lemma coll_inv_store_call {A} I (op : M A) : coll_inv I op → coll_inv I (store_call op).
Proof.
  intros Hop w H. unfold store_call.
  destruct (faults w) as [|[msg|] r]; [by apply Hop | done | by apply (Hop (set_faults r w))].
Qed.

Lemma coll_inv_open I path : coll_inv I (open_ path).
Proof. intros w H. unfold open_. by destruct (fs w !! path). Qed.

Lemma coll_inv_find_one I h : coll_inv I (find_one h).
Proof.
  apply coll_inv_bind; [apply coll_inv_emit | intros _].
  apply coll_inv_store_call, coll_inv_gets.
Qed.

Lemma coll_inv_insert_one (I : list doc → Prop) d :
  (∀ c, I c → existsb (has_hash (file_hash d)) c = false → I (c ++ [d])) →
  coll_inv I (insert_one d).
Proof.
  intros Hd. apply coll_inv_bind; [apply coll_inv_emit | intros _].
  apply coll_inv_store_call. intros w H. unfold act.
  destruct (existsb _ _) eqn:E; [done|]. by apply Hd.
Qed.

Create HintDb cinv discriminated.
#[global] Hint Resolve coll_inv_ret coll_inv_raise coll_inv_lift coll_inv_gets
  coll_inv_emit coll_inv_open coll_inv_find_one : cinv.

(** Walk down a definition written with binds, matches and handlers. *)
Ltac cinv :=
  repeat first
    [ solve [auto with cinv nocore]
    | match goal with
      | |- coll_inv _ (mbind _ _) => apply coll_inv_bind; [| intros ?]
      | |- coll_inv _ (try_except _ _ _) => apply coll_inv_try; [| intros ?]
      | |- coll_inv _ (attempt _) => apply coll_inv_attempt
      | |- coll_inv _ (store_call _) => apply coll_inv_store_call
      | |- coll_inv _ (match ?x with _ => _ end) => destruct x
      end ].

Section Invariant.
Context (X : externals) (I : list doc → Prop).
Hypothesis I_insert : ∀ c d,
  I c → existsb (has_hash (file_hash d)) c = false →
  has_type (meta d) = true → I (c ++ [d]).

Lemma coll_inv_sha256_of_file path : coll_inv I (sha256_of_file X path).
Proof. unfold sha256_of_file. cinv. Qed.

Lemma coll_inv_read_text path n : coll_inv I (read_text path n).
Proof. unfold read_text. cinv. Qed.

Lemma coll_inv_exists path : coll_inv I (exists_ path).
Proof. unfold exists_. cinv. Qed.

Lemma coll_inv_cache_hit uc h : coll_inv I (cache_hit uc h).
Proof. unfold cache_hit, get_cached_parse. cinv. Qed.

Lemma coll_inv_upsert path hash text m :
  has_type m = true → coll_inv I (upsert X path hash text m).
Proof.
  intros Hm. unfold upsert, upsert_parsed_doc, os_stat, time_time, get_cached_parse.
  cinv. apply coll_inv_insert_one. intros c Hc Hf. by apply I_insert.
Qed.

Hint Resolve coll_inv_sha256_of_file coll_inv_read_text coll_inv_exists
  coll_inv_cache_hit : cinv.
Hint Extern 1 (coll_inv _ (upsert _ _ _ _ _)) =>
  apply coll_inv_upsert; reflexivity : cinv.

Lemma coll_inv_pdf path uc : coll_inv I (parse_pdf_document X path uc).
Proof. unfold parse_pdf_document. cinv. Qed.

Lemma coll_inv_csv path uc n : coll_inv I (parse_csv_document X path uc n).
Proof. unfold parse_csv_document. cinv. Qed.

Lemma coll_inv_json path uc n : coll_inv I (parse_json_document X path uc n).
Proof. unfold parse_json_document. cinv. Qed.

Lemma coll_inv_html path uc n : coll_inv I (parse_html_document X path uc n).
Proof. unfold parse_html_document. cinv. Qed.

Hint Resolve coll_inv_pdf coll_inv_csv coll_inv_json coll_inv_html : cinv.

Lemma coll_inv_parse_file_by_type path uc : coll_inv I (parse_file_by_type X path uc).
Proof. unfold parse_file_by_type. cinv. Qed.

End Invariant.

(** ** The collection under [insert_one] and [find_one] *)

Lemma store_call_up {A} (op : M A) w : server_up w → store_call op w = op (served w).
Proof.
  unfold server_up, store_call, served. intros H.
  destruct (faults w) as [|[msg|] r] eqn:E; simpl.
  - by destruct w; simpl in *; subst.
  - by inversion H.
  - done.
Qed.

Lemma server_up_served w : server_up w → server_up (served w).
Proof.
  unfold server_up, served. simpl. intros H.
  destruct (faults w); [done | by inversion H].
Qed.

Lemma existsb_has_hash h (c : list doc) :
  existsb (has_hash h) c = true ↔ ∃ d, d ∈ c ∧ file_hash d = h.
Proof.
  rewrite existsb_exists. unfold has_hash. split.
  - intros (d & Hin & Hd). exists d. split; [by apply list_elem_of_In | by apply String.eqb_eq].
  - intros (d & Hin & Hd). exists d. split; [by apply list_elem_of_In | by apply String.eqb_eq].
Qed.

Lemma unique_hashes_eq (c : list doc) d d' :
  unique_hashes c → d ∈ c → d' ∈ c → file_hash d = file_hash d' → d = d'.
Proof.
  unfold unique_hashes. induction c as [|x c IH]; intros Hn Hd Hd' He.
  - by apply elem_of_nil in Hd.
  - simpl in Hn. apply NoDup_cons in Hn as [Hx Hn].
    apply elem_of_cons in Hd as [->|Hd]; apply elem_of_cons in Hd' as [->|Hd']; auto.
    + exfalso. apply Hx. rewrite He. by apply list_elem_of_fmap_2.
    + exfalso. apply Hx. rewrite <- He. by apply list_elem_of_fmap_2.
Qed.

Lemma find_has_hash (c : list doc) d :
  unique_hashes c → d ∈ c → List.find (has_hash (file_hash d)) c = Some d.
Proof.
  intros Hn Hd. destruct (List.find _ c) as [d'|] eqn:E.
  - apply find_some in E as [Hin Hh]. apply list_elem_of_In in Hin.
    apply String.eqb_eq in Hh. f_equal. by apply (unique_hashes_eq c).
  - exfalso. apply list_elem_of_In in Hd.
    pose proof (find_none _ _ E d Hd) as Hf. unfold has_hash in Hf.
    by rewrite String.eqb_refl in Hf.
Qed.

Lemma unique_hashes_snoc (c : list doc) d :
  unique_hashes c → existsb (has_hash (file_hash d)) c = false → unique_hashes (c ++ [d]).
Proof.
  unfold unique_hashes. intros Hn Hf. rewrite map_app. simpl.
  apply NoDup_app. split; [done|]. split; [|apply NoDup_singleton].
  intros h Hh Hh'. apply list_elem_of_singleton in Hh'. subst h.
  apply list_elem_of_fmap in Hh as (d' & He & Hin).
  assert (existsb (has_hash (file_hash d)) c = true) as Ht; [|congruence].
  apply existsb_has_hash. eauto.
Qed.

Section Upsert.
Context (X : externals).

Lemma os_stat_ok path f w :
  fs w !! path = Some f → os_stat path w = (Ok (len (f_bytes f), f_mtime f), w).
Proof.
  intros E. unfold os_stat, open_, mbind, M_bind, bind. by rewrite E.
Qed.

(** C1: a call of [upsert_parsed_doc] for a file that exists, while the
    server answers, does not raise.  It returns a record with the digest it
    was given, that record is in the collection, and it is the only record
    of the collection with that digest.  When another writer had already
    stored a record with the digest (the insert meets the duplicate key),
    the call returns that writer's record, found by the lookup, and leaves
    the collection as it was. *)
Theorem upsert_parsed_doc_race path hash text meta0 w :
  unique_hashes (coll w) → is_Some (fs w !! path) → server_up w →
  ∃ d w', upsert_parsed_doc X path hash text meta0 w = (Ok d, w')
    ∧ file_hash d = hash
    ∧ d ∈ coll w'
    ∧ unique_hashes (coll w')
    ∧ (∀ d', d' ∈ coll w' → file_hash d' = hash → d' = d)
    ∧ (∀ winner, winner ∈ coll w → file_hash winner = hash →
         d = winner ∧ coll w' = coll w).
Proof.
  intros Hu [f Hf] Hup.
  unfold upsert_parsed_doc, mbind, M_bind, bind.
  rewrite (os_stat_ok _ _ _ Hf). unfold time_time, gets.
  set (d := {| file_hash := hash |}).
  unfold try_except, insert_one, mbind, M_bind, bind, emit.
  rewrite store_call_up by done. unfold act. simpl coll.
  destruct (existsb (has_hash (file_hash d)) (coll w)) eqn:E.
  - apply existsb_has_hash in E as (c & Hc & Hh). simpl in Hh.
    simpl. unfold get_cached_parse, find_one, mbind, M_bind, bind, emit.
    rewrite store_call_up by (by apply server_up_served).
    unfold gets. simpl. rewrite <- Hh. rewrite (find_has_hash _ c) by done.
    eexists c, _. split; [reflexivity|]. simpl.
    repeat split; try done.
    + intros d' Hd' He. apply (unique_hashes_eq (coll w)); [done..|congruence].
    + apply (unique_hashes_eq (coll w)); [done..|congruence].
  - simpl. eexists d, _. split; [reflexivity|]. simpl.
    assert (unique_hashes (coll w ++ [d])) as Hu' by by apply unique_hashes_snoc.
    repeat split; try done.
    + apply elem_of_app. right. by apply list_elem_of_singleton.
    + intros d' Hd' He. apply (unique_hashes_eq (coll w ++ [d])); [done | done | |done].
      apply elem_of_app. right. by apply list_elem_of_singleton.
    + exfalso. assert (existsb (has_hash (file_hash d)) (coll w) = true); [|congruence].
      apply existsb_has_hash. eauto.
    + exfalso. assert (existsb (has_hash (file_hash d)) (coll w) = true); [|congruence].
      apply existsb_has_hash. eauto.
Qed.
End Upsert.

(** ** The bootstrap writes to the collection through the parsers only *)

Section Bootstrap_invariant.
Context (X : externals) (C : config) (I : list doc → Prop).
Hypothesis I_insert : ∀ c d,
  I c → existsb (has_hash (file_hash d)) c = false →
  has_type (meta d) = true → I (c ++ [d]).

Hint Resolve coll_inv_parse_file_by_type : cinv.

Lemma coll_inv_ingest_files root files acc :
  coll_inv I (ingest_files X C root files acc).
Proof.
  revert acc. induction files as [|fname rest IH]; intros acc; simpl; cinv.
Qed.

Lemma coll_inv_ingest_walk dirs acc : coll_inv I (ingest_walk X C dirs acc).
Proof.
  revert acc. induction dirs as [|[root files] rest IH]; intros acc; simpl.
  - cinv.
  - apply coll_inv_bind; [apply coll_inv_ingest_files | intros acc'; apply IH].
Qed.

Lemma coll_inv_build dir : coll_inv I (build_or_load_vectorstore X C dir).
Proof.
  unfold build_or_load_vectorstore, has_content, vectordb_get, add_texts, act.
  cinv; try apply coll_inv_ingest_walk; try (intros w H; exact H).
  all: intros w H; simpl; try done.
  by destruct (probe_fault w).
Qed.
End Bootstrap_invariant.

Lemma all_typed_snoc (c : list doc) d :
  all_typed c → existsb (has_hash (file_hash d)) c = false →
  has_type (meta d) = true → all_typed (c ++ [d]).
Proof.
  intros Hc _ Hd. apply Forall_app. split; [done|]. by apply Forall_singleton.
Qed.

(** C9: in every state of the collection that the parsers and the bootstrap
    can produce from an empty one, each record's metadata has the key
    [type], bound to one of pdf, csv, json, html and txt_or_other; the
    fall-back branches of the CSV and JSON parsers are branches of the
    parsers the induction goes through. *)
Theorem reachable_all_typed X w : reachable X w → all_typed (coll w).
Proof.
  induction 1 as [w E|w w' _ IH E|w path uc _ IH|w path uc n _ IH
                  |w path uc n _ IH|w path uc n _ IH|w path uc _ IH|w C dir _ IH].
  - rewrite E. apply Forall_nil_2.
  - by rewrite E.
  - by apply (coll_inv_pdf X all_typed all_typed_snoc).
  - by apply (coll_inv_csv X all_typed all_typed_snoc).
  - by apply (coll_inv_json X all_typed all_typed_snoc).
  - by apply (coll_inv_html X all_typed all_typed_snoc).
  - by apply (coll_inv_parse_file_by_type X all_typed all_typed_snoc).
  - by apply (coll_inv_build X C all_typed all_typed_snoc).
Qed.

(** ** The protocol the parsers share *)

Section Protocol.
Context (X : externals).

Lemma exists_ok path f w : fs w !! path = Some f → exists_ path w = (Ok true, w).
Proof.
  intros E. unfold exists_, gets. rewrite bool_decide_eq_true_2; [done|].
  rewrite E. by eexists.
Qed.

Lemma sha256_of_file_ok path f w :
  fs w !! path = Some f → sha256_of_file X path w = (Ok (sha256 X (f_bytes f)), w).
Proof. intros E. unfold sha256_of_file, open_, mbind, M_bind, bind. by rewrite E. Qed.

Lemma open_ok path f w : fs w !! path = Some f → open_ path w = (Ok f, w).
Proof. intros E. unfold open_. by rewrite E. Qed.

Lemma read_text_ok path n f w :
  fs w !! path = Some f →
  read_text path n w = (Ok (read_chars n (text_of f)), set_log (log w ++ [EvRead path n]) w).
Proof. intros E. unfold read_text, open_, mbind, M_bind, bind. by rewrite E. Qed.

Lemma find_one_up h w :
  server_up w → find_one h w = (Ok (List.find (has_hash h) (coll w)), looked_up h w).
Proof.
  intros Hup. unfold find_one, mbind, M_bind, bind, emit.
  by rewrite store_call_up.
Qed.

Lemma find_fresh h w : fresh h w → List.find (has_hash h) (coll w) = None.
Proof.
  unfold fresh. intros Hf. destruct (List.find _ _) as [d|] eqn:E; [|done].
  apply find_some in E as [Hin Hh].
  assert (existsb (has_hash h) (coll w) = true); [|congruence].
  apply existsb_exists. eauto.
Qed.

Lemma cache_hit_miss uc h w :
  server_up w → fresh h w → cache_hit uc h w = (Ok None, missed uc h w).
Proof.
  intros Hup Hf. unfold cache_hit, missed. destruct uc; [|done].
  unfold get_cached_parse, mbind, M_bind, bind.
  by rewrite find_one_up, find_fresh.
Qed.

Lemma cache_hit_found h c w :
  server_up w → List.find (has_hash h) (coll w) = Some c →
  cache_hit true h w
  = (Ok (Some (md c, {[ "cached" := VBool true; "file_hash" := VStr h;
                        "cached_at" := VNum (cached_at c) ]})), looked_up h w).
Proof.
  intros Hup E. unfold cache_hit, get_cached_parse, mbind, M_bind, bind.
  by rewrite find_one_up, E.
Qed.

Lemma insert_one_fresh d w :
  server_up w → fresh (file_hash d) w → insert_one d w = (Ok (), inserted d w).
Proof.
  intros Hup Hf. unfold insert_one, mbind, M_bind, bind, emit.
  rewrite store_call_up by done. unfold act. simpl coll. unfold fresh in Hf.
  by rewrite Hf.
Qed.

Lemma upsert_fresh path hash text meta0 f w :
  fs w !! path = Some f → server_up w → fresh hash w →
  upsert_parsed_doc X path hash text meta0 w
  = (Ok (new_doc X path hash text meta0 f (now w)),
     inserted (new_doc X path hash text meta0 f (now w)) w).
Proof.
  intros E Hup Hf. unfold upsert_parsed_doc, mbind, M_bind, bind.
  rewrite (os_stat_ok _ _ _ E). unfold time_time, gets, try_except.
  fold (new_doc X path hash text meta0 f (now w)).
  unfold mbind, M_bind, bind. by rewrite insert_one_fresh.
Qed.

Lemma upsert_store_failure path hash text meta0 f msg r w :
  fs w !! path = Some f → faults w = Some msg :: r →
  upsert_parsed_doc X path hash text meta0 w
  = (Raise (PyMongoError msg), set_faults r (set_log (log w ++ [EvInsert hash]) w)).
Proof.
  intros E Hfl. unfold upsert_parsed_doc, mbind, M_bind, bind.
  rewrite (os_stat_ok _ _ _ E). unfold time_time, gets, try_except.
  unfold insert_one, mbind, M_bind, bind, emit, store_call. simpl. by rewrite Hfl.
Qed.

Lemma missed_fs uc h w : fs (missed uc h w) = fs w.
Proof. by destruct uc. Qed.
Lemma missed_coll uc h w : coll (missed uc h w) = coll w.
Proof. by destruct uc. Qed.
Lemma missed_now uc h w : now (missed uc h w) = now w.
Proof. by destruct uc. Qed.
Lemma missed_up uc h w : server_up w → server_up (missed uc h w).
Proof.
  destruct uc; [|done]. intros H. unfold missed, looked_up.
  by apply (server_up_served (set_log _ w)).
Qed.
Lemma missed_fresh uc h h' w : fresh h' w → fresh h' (missed uc h w).
Proof. unfold fresh. by rewrite missed_coll. Qed.
End Protocol.

(** ** The fall-back branches *)

Lemma len_take_le {A} (n : Z) (l : list A) : 0 ≤ n → len (take (Z.to_nat n) l) ≤ n.
Proof. intros Hn. unfold len. rewrite length_take. lia. Qed.

Lemma read_chars_nonneg n s : 0 ≤ n → read_chars n s = take (Z.to_nat n) s.
Proof. intros Hn. unfold read_chars. by rewrite (proj2 (Z.ltb_ge n 0)). Qed.

Lemma json_fallback_eq n text :
  0 ≤ n →
  json_fallback n text
  = take (Z.to_nat n) text
    ++ (if len (take (Z.to_nat n) text) =? n then truncated_marker else []).
Proof.
  intros Hn. unfold json_fallback, slice_to. rewrite read_chars_nonneg by done.
  rewrite (proj2 (Z.leb_le 0 n)) by done. by rewrite take_take, Nat.min_id.
Qed.

Lemma bind_ok {A B} (m : M A) (k : A → M B) w a w' :
  m w = (Ok a, w') → (m ≫= k) w = k a w'.
Proof. intros E. unfold mbind, M_bind, bind. by rewrite E. Qed.

Lemma bind_ok_then {A B} (m : M A) (k : A → M B) w a w' r :
  m w = (Ok a, w') → k a w' = r → (m ≫= k) w = r.
Proof. intros E <-. by apply bind_ok. Qed.

Lemma bind_raise {A B} (m : M A) (k : A → M B) w e w' :
  m w = (Raise e, w') → (m ≫= k) w = (Raise e, w').
Proof. intros E. unfold mbind, M_bind, bind. by rewrite E. Qed.

Lemma attempt_eq {A} (m : M A) w r w' : m w = (r, w') → attempt m w = (Ok r, w').
Proof. intros E. unfold attempt. by rewrite E. Qed.

Lemma mret_ok {A} (a : A) w : (mret a : M A) w = (Ok a, w).
Proof. done. Qed.

Lemma emit_ok e w : emit e w = (Ok (), set_log (log w ++ [e]) w).
Proof. done. Qed.

(** One statement of a parser: rewrite with what the first computation of a
    bind does. *)
Ltac mstep tac := erewrite bind_ok by tac; cbn beta iota delta [negb].
Ltac mfacts :=
  first [ done
        | rewrite ?missed_fs; done
        | apply missed_up; done
        | apply missed_fresh; done ].

Section Fallbacks.
Context (X : externals).

(** C7: when [json.load] fails on a file (the digest not cached yet, the
    server answering, [max_chars] not negative), the JSON parser returns
    the fenced block around a body made of the first [max_chars] characters
    of the text, at most [max_chars] of them; the body ends with the marker
    "\n...truncated" exactly when that prefix has [max_chars] characters, and
    is the bare prefix when it is shorter. *)
Theorem json_fallback_prefix_and_marker path uc max_chars w f e :
  fs w !! path = Some f →
  json_pretty X (text_of f) = Raise e →
  0 ≤ max_chars →
  server_up w →
  fresh (sha256 X (f_bytes f)) w →
  let prefix := take (Z.to_nat max_chars) (text_of f) in
  ∃ body w',
    parse_json_document X path uc max_chars w
    = (Ok (lit "```json" ++ nl ++ body ++ nl ++ fence,
           not_cached (sha256 X (f_bytes f))), w')
    ∧ len prefix ≤ max_chars
    ∧ (body = prefix ++ truncated_marker ↔ len prefix = max_chars)
    ∧ (len prefix < max_chars → body = prefix).
Proof.
  intros E Hj Hn Hup Hf prefix.
  exists (json_fallback max_chars (text_of f)). eexists.
  split; [|split; [by apply len_take_le|]].
  - unfold parse_json_document.
    mstep ltac:(by eapply exists_ok).
    mstep ltac:(by eapply sha256_of_file_ok).
    mstep ltac:(by eapply cache_hit_miss).
    mstep ltac:(eapply open_ok; mfacts).
    mstep ltac:(apply emit_ok).
    rewrite Hj. cbn beta iota.
    mstep ltac:(eapply bind_ok_then; [apply emit_ok | apply mret_ok]).
    unfold upsert.
    mstep ltac:(eapply upsert_fresh; [ simpl; mfacts | apply (missed_up uc); done
                                     | unfold fresh; simpl; rewrite missed_coll; done ]).
    reflexivity.
  - rewrite json_fallback_eq by done. fold prefix.
    destruct (len prefix =? max_chars) eqn:El.
    + apply Z.eqb_eq in El. split; [done | lia].
    + apply Z.eqb_neq in El. rewrite app_nil_r. split; [|done].
      split; [|done]. intros Hb. apply (f_equal length) in Hb.
      rewrite length_app in Hb. simpl in Hb. lia.
Qed.

Lemma parse_csv_fallback path uc n w f e :
  fs w !! path = Some f →
  read_csv X path (f_bytes f) = Raise e →
  server_up w →
  fresh (sha256 X (f_bytes f)) w →
  let block := fence ++ nl ++ take (Z.to_nat 100000) (text_of f) ++ nl ++ fence in
  let d := new_doc X path (sha256 X (f_bytes f)) block
             (Some {[ "type" := VStr "csv"; "error" := VStr (str_of_exn e) ]})
             f (now w) in
  ∃ w', parse_csv_document X path uc n w
        = (Ok (block, not_cached (sha256 X (f_bytes f))), w')
        ∧ coll w' = coll w ++ [d].
Proof.
  intros E Hr Hup Hf block d. eexists. split.
  - unfold parse_csv_document.
    mstep ltac:(by eapply exists_ok).
    mstep ltac:(by eapply sha256_of_file_ok).
    mstep ltac:(by eapply cache_hit_miss).
    mstep ltac:(eapply attempt_eq, bind_ok_then;
                  [ eapply open_ok; mfacts
                  | eapply bind_ok_then; [apply emit_ok | unfold lift; by rewrite Hr]]).
    mstep ltac:(eapply read_text_ok; simpl; mfacts).
    rewrite read_chars_nonneg by done.
    unfold upsert.
    mstep ltac:(eapply upsert_fresh; [ simpl; mfacts | apply (missed_up uc); done
                                     | unfold fresh; simpl; rewrite missed_coll; done ]).
    reflexivity.
  - simpl. by rewrite missed_coll, missed_now.
Qed.

(** C6, amended: a CSV file that [read_csv] rejects is stored, under the
    digest of its bytes, as a fenced block around the first 100000
    characters of its text, with the metadata [type] and [error]; the
    parser returns that block and raises nothing. *)
Theorem csv_fallback_stores_prefix path uc n w f e :
  fs w !! path = Some f →
  read_csv X path (f_bytes f) = Raise e →
  server_up w →
  fresh (sha256 X (f_bytes f)) w →
  let prefix := take (Z.to_nat 100000) (text_of f) in
  let block := fence ++ nl ++ prefix ++ nl ++ fence in
  ∃ d w',
    parse_csv_document X path uc n w
    = (Ok (block, not_cached (sha256 X (f_bytes f))), w')
    ∧ len prefix ≤ 100000
    ∧ coll w' = coll w ++ [d]
    ∧ file_hash d = sha256 X (f_bytes f)
    ∧ md d = block
    ∧ meta d = {[ "type" := VStr "csv"; "error" := VStr (str_of_exn e) ]}.
Proof.
  intros E Hr Hup Hf prefix block.
  destruct (parse_csv_fallback path uc n w f e E Hr Hup Hf) as (w' & Hp & Hc).
  eexists _, w'. split; [exact Hp|]. split; [by apply len_take_le|].
  split; [exact Hc|]. done.
Qed.

Lemma parse_html_miss path uc max_chars w f :
  fs w !! path = Some f →
  0 ≤ max_chars →
  server_up w →
  fresh (sha256 X (f_bytes f)) w →
  text_of_result (parse_html_document X path uc max_chars w).1
  = match soup_get_text X (take (Z.to_nat max_chars) (text_of f)) with
    | Ok t => Ok (html_clean max_chars t)
    | Raise e => Raise e
    end.
Proof.
  intros E Hn Hup Hf. unfold parse_html_document.
  mstep ltac:(by eapply exists_ok).
  mstep ltac:(by eapply sha256_of_file_ok).
  mstep ltac:(by eapply cache_hit_miss).
  mstep ltac:(eapply read_text_ok; mfacts).
  mstep ltac:(apply emit_ok).
  rewrite read_chars_nonneg by done.
  destruct (soup_get_text X _) as [t|e'] eqn:Es.
  - mstep ltac:(unfold lift; reflexivity).
    unfold upsert.
    mstep ltac:(eapply upsert_fresh; [ simpl; mfacts | apply (missed_up uc); done
                                     | unfold fresh; simpl; rewrite missed_coll; done ]).
    reflexivity.
  - erewrite bind_raise by (unfold lift; reflexivity). reflexivity.
Qed.

(** C10: the HTML parser hands BeautifulSoup the first [max_chars]
    characters of the file and nothing else, so two files that agree on
    their first [max_chars] characters get the same normalized text (or the
    same exception), whatever follows in either of them. *)
Theorem html_reads_bounded_input path1 path2 uc max_chars w1 w2 f1 f2 :
  0 ≤ max_chars →
  fs w1 !! path1 = Some f1 → fs w2 !! path2 = Some f2 →
  server_up w1 → server_up w2 →
  fresh (sha256 X (f_bytes f1)) w1 → fresh (sha256 X (f_bytes f2)) w2 →
  take (Z.to_nat max_chars) (text_of f1) = take (Z.to_nat max_chars) (text_of f2) →
  text_of_result (parse_html_document X path1 uc max_chars w1).1
  = text_of_result (parse_html_document X path2 uc max_chars w2).1.
Proof.
  intros Hn E1 E2 Hu1 Hu2 Hf1 Hf2 Ht.
  rewrite (parse_html_miss path1 uc max_chars w1 f1) by done.
  rewrite (parse_html_miss path2 uc max_chars w2 f2) by done.
  by rewrite Ht.
Qed.
End Fallbacks.

(** ** A cache hit *)

Section Cache_hit.
Context (X : externals).

Lemma cache_hit_found_status h c w :
  server_up w → List.find (has_hash h) (coll w) = Some c →
  cache_hit true h w = (Ok (Some (md c, cached_status h c)), looked_up h w).
Proof. apply cache_hit_found. Qed.

Ltac hit_proof E Hup Hc :=
  mstep ltac:(by eapply exists_ok);
  mstep ltac:(by eapply sha256_of_file_ok);
  mstep ltac:(by eapply cache_hit_found_status);
  reflexivity.

Lemma parse_pdf_hit path w f c :
  fs w !! path = Some f → server_up w →
  List.find (has_hash (sha256 X (f_bytes f))) (coll w) = Some c →
  parse_pdf_document X path true w
  = (Ok (md c, cached_status (sha256 X (f_bytes f)) c), looked_up (sha256 X (f_bytes f)) w).
Proof. intros E Hup Hc. unfold parse_pdf_document. hit_proof E Hup Hc. Qed.

Lemma parse_csv_hit path n w f c :
  fs w !! path = Some f → server_up w →
  List.find (has_hash (sha256 X (f_bytes f))) (coll w) = Some c →
  parse_csv_document X path true n w
  = (Ok (md c, cached_status (sha256 X (f_bytes f)) c), looked_up (sha256 X (f_bytes f)) w).
Proof. intros E Hup Hc. unfold parse_csv_document. hit_proof E Hup Hc. Qed.

Lemma parse_json_hit path n w f c :
  fs w !! path = Some f → server_up w →
  List.find (has_hash (sha256 X (f_bytes f))) (coll w) = Some c →
  parse_json_document X path true n w
  = (Ok (md c, cached_status (sha256 X (f_bytes f)) c), looked_up (sha256 X (f_bytes f)) w).
Proof. intros E Hup Hc. unfold parse_json_document. hit_proof E Hup Hc. Qed.

Lemma parse_html_hit path n w f c :
  fs w !! path = Some f → server_up w →
  List.find (has_hash (sha256 X (f_bytes f))) (coll w) = Some c →
  parse_html_document X path true n w
  = (Ok (md c, cached_status (sha256 X (f_bytes f)) c), looked_up (sha256 X (f_bytes f)) w).
Proof. intros E Hup Hc. unfold parse_html_document. hit_proof E Hup Hc. Qed.

(** The part of C2 the code keeps: for the extensions that reach one of
    the four parsers, a hit returns the cached text and the status
    [cached: True]; the world only gains the lookup. *)
Lemma dispatch_hit path w f c :
  lower (splitext_ext path) ∈ parser_extensions →
  fs w !! path = Some f → server_up w →
  List.find (has_hash (sha256 X (f_bytes f))) (coll w) = Some c →
  parse_file_by_type X path true w
  = (Ok (md c, cached_status (sha256 X (f_bytes f)) c), looked_up (sha256 X (f_bytes f)) w).
Proof.
  intros Hext E Hup Hc. unfold parse_file_by_type, parser_extensions in *.
  repeat (apply elem_of_cons in Hext as [->|Hext]); simpl.
  - by eapply parse_pdf_hit.
  - by eapply parse_csv_hit.
  - by eapply parse_json_hit.
  - by eapply parse_html_hit.
  - by eapply parse_html_hit.
  - by apply elem_of_nil in Hext.
Qed.
End Cache_hit.

(** ** The branch of the dispatcher for every other extension *)

Section Plain_branch.
Context (X : externals).

Lemma upsert_duplicate path hash text meta0 f c w :
  fs w !! path = Some f → server_up w →
  List.find (has_hash hash) (coll w) = Some c →
  upsert_parsed_doc X path hash text meta0 w
  = (Ok c, looked_up hash (served (set_log (log w ++ [EvInsert hash]) w))).
Proof.
  intros E Hup Hc. unfold upsert_parsed_doc, mbind, M_bind, bind.
  rewrite (os_stat_ok _ _ _ E). unfold time_time, gets, try_except.
  unfold insert_one, mbind, M_bind, bind, emit.
  rewrite store_call_up by done. unfold act. simpl coll. simpl file_hash.
  assert (existsb (has_hash hash) (coll w) = true) as ->.
  { apply find_some in Hc as [Hin Hh]. apply existsb_exists. eauto. }
  simpl. unfold get_cached_parse.
  rewrite find_one_up by (by apply (server_up_served (set_log _ w))).
  simpl. by rewrite Hc.
Qed.

Lemma not_parser_extension ext :
  ext ∉ parser_extensions →
  String.eqb ext ".pdf" = false ∧ String.eqb ext ".csv" = false
  ∧ String.eqb ext ".json" = false ∧ String.eqb ext ".html" = false
  ∧ String.eqb ext ".htm" = false.
Proof.
  intros Hn. unfold parser_extensions in Hn.
  repeat split; apply String.eqb_neq; intros ->; apply Hn; set_solver.
Qed.

(** For a file that goes to no parser, a record with its digest in the
    collection changes nothing of the route: the file is read, the insert is
    sent and refused, the record comes back through the handler of the
    duplicate key, and the status says [cached: False], whatever
    [use_cache] is. *)
Lemma plain_branch_ignores_use_cache path uc w f c :
  lower (splitext_ext path) ∉ parser_extensions →
  fs w !! path = Some f → server_up w →
  List.find (has_hash (sha256 X (f_bytes f))) (coll w) = Some c →
  ∃ w', parse_file_by_type X path uc w
        = (Ok (md c, not_cached (sha256 X (f_bytes f))), w')
    ∧ log w' = log w ++ [EvRead path 200000; EvInsert (sha256 X (f_bytes f));
                         EvFind (sha256 X (f_bytes f))]
    ∧ coll w' = coll w.
Proof.
  intros Hext E Hup Hc.
  destruct (not_parser_extension _ Hext) as (E1 & E2 & E3 & E4 & E5).
  eexists. split.
  - unfold parse_file_by_type. rewrite E1, E2, E3, E4, E5. simpl.
    mstep ltac:(by eapply read_text_ok).
    mstep ltac:(by eapply sha256_of_file_ok).
    unfold upsert.
    mstep ltac:(by eapply upsert_duplicate).
    reflexivity.
  - simpl. split; [|done]. by rewrite <- !app_assoc.
Qed.

(** When the server refuses the insert, the same branch raises the error
    of the server to its caller. *)
Lemma plain_branch_store_failure path uc w f msg r :
  lower (splitext_ext path) ∉ parser_extensions →
  fs w !! path = Some f → faults w = Some msg :: r →
  (parse_file_by_type X path uc w).1 = Raise (PyMongoError msg).
Proof.
  intros Hext E Hfl.
  destruct (not_parser_extension _ Hext) as (E1 & E2 & E3 & E4 & E5).
  unfold parse_file_by_type. rewrite E1, E2, E3, E4, E5. simpl.
  mstep ltac:(by eapply read_text_ok).
  mstep ltac:(by eapply sha256_of_file_ok).
  unfold upsert.
  erewrite bind_raise; [reflexivity|].
  by eapply upsert_store_failure.
Qed.
End Plain_branch.

(** ** The second call on a plain-text file *)

(** C2, at the input where the code departs from it: "in/notes.txt" has no
    parser of its own, its digest is in the collection after a first call,
    and the second call with [use_cache = true] reads the file again, tries
    the insert, falls back on the lookup of the duplicate-key handler and
    reports [cached: False]. *)
Theorem plain_file_skips_the_cache_check :
  let w1 := (parse_file_by_type demo_X "in/notes.txt" true demo_world).2 in
  let r := parse_file_by_type demo_X "in/notes.txt" true w1 in
  map file_hash (coll w1) = ["d2-209"]
  ∧ r.1 = Ok (lit "hi", not_cached "d2-209")
  ∧ log r.2 = log w1 ++ [EvRead "in/notes.txt" 200000; EvInsert "d2-209"; EvFind "d2-209"]
  ∧ coll r.2 = coll w1.
Proof. intros w1 r. split; [|split; [|split]]; vm_compute; reflexivity. Qed.

(** ** The probe of the bootstrap *)

Lemma has_content_answered w :
  probe_fault w = None →
  has_content w = (Ok (0 <? len (index w)), set_log (log w ++ [EvProbe]) w).
Proof.
  intros Hp. unfold has_content, try_except, vectordb_get.
  erewrite bind_ok; [reflexivity|].
  eapply bind_ok_then; [apply emit_ok|]. unfold act. simpl. by rewrite Hp.
Qed.

(** A probe that raises is taken for an empty index (lines 42-43). *)
Lemma has_content_probe_raises msg w :
  probe_fault w = Some msg →
  has_content w = (Ok false, set_log (log w ++ [EvProbe]) w).
Proof.
  intros Hp. unfold has_content, try_except, vectordb_get.
  erewrite bind_raise; [reflexivity|].
  eapply bind_ok_then; [apply emit_ok|]. unfold act. simpl. by rewrite Hp.
Qed.

Lemma has_content_world w :
  ∃ b, has_content w = (Ok b, set_log (log w ++ [EvProbe]) w).
Proof.
  destruct (probe_fault w) as [msg|] eqn:E.
  - exists false. by eapply has_content_probe_raises.
  - eexists. by apply has_content_answered.
Qed.

(** ** A store failure during the bootstrap *)

(** *** A refusal of the server ends the call *)

Lemma answered_same w w' : faults w' = faults w → answered w w'.
Proof. intros E. exists 0%nat. by rewrite E. Qed.

Lemma answered_then w w1 w' : answered w w1 → answered w1 w' → answered w w'.
Proof.
  intros [k E] [k' E']. exists (k + k')%nat.
  by rewrite E, E', replicate_add, app_assoc.
Qed.

Lemma answered_then_refused msg w w1 w' :
  answered w w1 → refused msg w1 w' → refused msg w w'.
Proof.
  intros [k E] [k' E']. exists (k + k')%nat.
  by rewrite E, E', replicate_add, app_assoc.
Qed.

Lemma refused_not_answered msg w w' : refused msg w w' → ¬ answered w w'.
Proof.
  intros [k E] [k' E']. rewrite E in E'.
  pose proof (f_equal length E') as Hl.
  rewrite !length_app, !length_replicate in Hl. simpl in Hl.
  assert (k' = S k) as -> by lia.
  apply (f_equal (λ l, l !! k)) in E'.
  rewrite lookup_app_r, length_replicate, Nat.sub_diag in E'
    by (rewrite length_replicate; lia).
  rewrite lookup_app_l in E' by (rewrite length_replicate; lia).
  rewrite lookup_replicate_2 in E' by lia. done.
Qed.

Lemma refused_agree msg msg' w w' : refused msg w w' → refused msg' w w' → msg = msg'.
Proof.
  intros [k E] [k' E']. rewrite E in E'.
  pose proof (f_equal length E') as Hl.
  rewrite !length_app, !length_replicate in Hl. simpl in Hl.
  assert (k' = k) as -> by lia.
  apply app_inv_head in E'. by injection E'.
Qed.

Lemma surfaces_quiet {A} (m : M A) : (∀ w, faults (m w).2 = faults w) → surfaces m.
Proof. intros H w. left. by apply answered_same. Qed.

Lemma surfaces_ret {A} (a : A) : surfaces (mret a).
Proof. by apply surfaces_quiet. Qed.

Lemma surfaces_raise {A} e : surfaces (raise (A:=A) e).
Proof. by apply surfaces_quiet. Qed.

Lemma surfaces_lift {A} (r : res A) : surfaces (lift r).
Proof. by apply surfaces_quiet. Qed.

Lemma surfaces_gets {A} (f : world → A) : surfaces (gets f).
Proof. by apply surfaces_quiet. Qed.

Lemma surfaces_emit e : surfaces (emit e).
Proof. by apply surfaces_quiet. Qed.

Lemma surfaces_open path : surfaces (open_ path).
Proof. apply surfaces_quiet. intros w. unfold open_. by destruct (fs w !! path). Qed.

Lemma surfaces_bind {A B} (m : M A) (k : A → M B) :
  surfaces m → (∀ a, surfaces (k a)) → surfaces (m ≫= k).
Proof.
  intros Hm Hk w. unfold mbind, M_bind, bind.
  specialize (Hm w). destruct (m w) as [[a|e] w1]; simpl in *.
  - destruct Hm as [Ha|(msg & _ & [=])].
    specialize (Hk a w1). destruct (k a w1) as [r w']; simpl in *.
    destruct Hk as [Hk|(msg & Hr & ->)].
    + left. by eapply answered_then.
    + right. exists msg. split; [by eapply answered_then_refused | done].
  - destruct Hm as [Ha|(msg & Hr & [= ->])]; [by left|]. right. by exists msg.
Qed.

(** A handler that does not take the error of the store lets it through. *)
Lemma surfaces_try {A} sel (m : M A) h :
  (∀ msg, sel (PyMongoError msg) = false) →
  surfaces m → (∀ e, surfaces (h e)) → surfaces (try_except sel m h).
Proof.
  intros Hsel Hm Hh w. unfold try_except.
  specialize (Hm w). destruct (m w) as [[a|e] w1]; simpl in *; [exact Hm|].
  destruct Hm as [Ha|(msg & Hr & [= ->])].
  - destruct (sel e); [|by left].
    specialize (Hh e w1). destruct (h e w1) as [r w']; simpl in *.
    destruct Hh as [Hk|(msg & Hr & ->)].
    + left. by eapply answered_then.
    + right. exists msg. split; [by eapply answered_then_refused | done].
  - rewrite Hsel. right. by exists msg.
Qed.

Lemma surfaces_store_call {A} (op : M A) :
  (∀ w, faults (op w).2 = faults w) → surfaces (store_call op).
Proof.
  intros Hop w. unfold store_call. destruct (faults w) as [|[msg|] r] eqn:E.
  - left. apply answered_same. by rewrite Hop.
  - right. exists msg. split; [|done]. exists 0%nat. by rewrite E.
  - left. exists 1%nat. by rewrite E, Hop.
Qed.

Lemma surfaces_find_one h : surfaces (find_one h).
Proof.
  apply surfaces_bind; [apply surfaces_emit | intros _].
  by apply surfaces_store_call.
Qed.

Lemma surfaces_insert_one d : surfaces (insert_one d).
Proof.
  apply surfaces_bind; [apply surfaces_emit | intros _].
  apply surfaces_store_call. intros w. unfold act. by destruct (existsb _ _).
Qed.

Create HintDb surfaces discriminated.
#[global] Hint Resolve surfaces_ret surfaces_raise surfaces_lift surfaces_gets
  surfaces_emit surfaces_open surfaces_find_one surfaces_insert_one : surfaces.

Ltac surfaces_walk :=
  repeat first
    [ solve [auto with surfaces nocore]
    | match goal with
      | |- surfaces (mbind _ _) => apply surfaces_bind; [| intros ?]
      | |- surfaces (try_except is_duplicate_key _ _) =>
          apply surfaces_try; [done | | intros ?]
      | |- surfaces (match ?x with _ => _ end) => destruct x
      end ].

Section Store_failure.
Context (X : externals) (C : config).

Lemma surfaces_upsert_parsed_doc path hash text meta0 :
  surfaces (upsert_parsed_doc X path hash text meta0).
Proof. unfold upsert_parsed_doc, os_stat, time_time, get_cached_parse. surfaces_walk. Qed.

Lemma surfaces_upsert path hash text m : surfaces (upsert X path hash text m).
Proof. apply surfaces_upsert_parsed_doc. Qed.

Lemma surfaces_sha256_of_file path : surfaces (sha256_of_file X path).
Proof. unfold sha256_of_file. surfaces_walk. Qed.

Lemma surfaces_read_text path n : surfaces (read_text path n).
Proof. unfold read_text. surfaces_walk. Qed.

Lemma surfaces_exists path : surfaces (exists_ path).
Proof. unfold exists_. surfaces_walk. Qed.

Lemma surfaces_cache_hit uc h : surfaces (cache_hit uc h).
Proof. unfold cache_hit, get_cached_parse. surfaces_walk. Qed.

(** The [try] around [pd.read_csv] holds no call of the server. *)
Lemma surfaces_read_csv path :
  surfaces (attempt (f ← open_ path; emit (EvReadCsv path);;
                     lift (read_csv X path (f_bytes f)))).
Proof.
  apply surfaces_quiet. intros w.
  unfold attempt, mbind, M_bind, bind, open_. by destruct (fs w !! path).
Qed.

Hint Resolve surfaces_upsert surfaces_sha256_of_file surfaces_read_text
  surfaces_exists surfaces_cache_hit surfaces_read_csv : surfaces.

Lemma surfaces_pdf path uc : surfaces (parse_pdf_document X path uc).
Proof. unfold parse_pdf_document. surfaces_walk. Qed.

Lemma surfaces_csv path uc n : surfaces (parse_csv_document X path uc n).
Proof. unfold parse_csv_document. surfaces_walk. Qed.

Lemma surfaces_json path uc n : surfaces (parse_json_document X path uc n).
Proof. unfold parse_json_document. surfaces_walk. Qed.

Lemma surfaces_html path uc n : surfaces (parse_html_document X path uc n).
Proof. unfold parse_html_document. surfaces_walk. Qed.

Hint Resolve surfaces_pdf surfaces_csv surfaces_json surfaces_html : surfaces.

Lemma surfaces_parse_file_by_type path uc : surfaces (parse_file_by_type X path uc).
Proof. unfold parse_file_by_type. surfaces_walk. Qed.

(** The two cases exclude each other: a call that used up a refusal of the
    schedule raised it. *)
Lemma refusal_leaves_the_parser path uc w msg :
  refused msg w (parse_file_by_type X path uc w).2 →
  (parse_file_by_type X path uc w).1 = Raise (PyMongoError msg).
Proof.
  intros Hr. destruct (surfaces_parse_file_by_type path uc w) as [Ha|(msg' & Hr' & E)].
  - by destruct (refused_not_answered _ _ _ Hr).
  - by rewrite (refused_agree _ _ _ _ Hr Hr').
Qed.

Lemma ingest_files_skips root fname rest acc w e :
  startswith_dot fname = false →
  let p := parse_file_by_type X (path_join root fname) true
             (set_log (log w ++ [EvParseFile (path_join root fname)]) w) in
  p.1 = Raise e →
  ingest_files X C root (fname :: rest) acc w = ingest_files X C root rest acc p.2.
Proof.
  intros Hd p Hp. simpl. rewrite Hd.
  erewrite bind_ok
    by (apply attempt_eq; eapply bind_ok_then; [apply emit_ok | apply surjective_pairing]).
  fold p. by rewrite Hp.
Qed.

Lemma ingest_files_returns root files acc w :
  ∃ recs w', ingest_files X C root files acc w = (Ok recs, w').
Proof.
  revert acc w. induction files as [|fname rest IH]; intros acc w; simpl; [by eauto|].
  destruct (startswith_dot fname); [by apply IH|].
  unfold mbind, M_bind, bind, attempt, emit.
  destruct (parse_file_by_type X (path_join root fname) true _)
    as [[[text meta0]|e] w1]; simpl; apply IH.
Qed.

Lemma ingest_walk_returns dirs acc w :
  ∃ recs w', ingest_walk X C dirs acc w = (Ok recs, w').
Proof.
  revert acc w. induction dirs as [|[root files] rest IH]; intros acc w; simpl; [by eauto|].
  destruct (ingest_files_returns root files acc w) as (recs & w1 & E).
  unfold mbind, M_bind, bind. rewrite E. apply IH.
Qed.

(** What the bootstrap does once the probe has reported no record or has
    raised: the splitter is constructed, the directory is walked to its end,
    and the records of the walk, if there are any, are added in one call. *)
Lemma build_after_the_probe dir w :
  (has_content w).1 = Ok false →
  match new_splitter X (CHUNK_SIZE C) (CHUNK_OVERLAP C) with
  | Ok _ =>
    ∃ recs w1,
      ingest_walk X C (os_walk X (fs w) dir) [] (set_log (log w ++ [EvProbe]) w)
      = (Ok recs, w1)
      ∧ build_or_load_vectorstore X C dir w
        = (if nonempty recs then add_texts recs else mret ()) w1
  | Raise e =>
    build_or_load_vectorstore X C dir w = (Raise e, set_log (log w ++ [EvProbe]) w)
  end.
Proof.
  intros Hc. destruct (has_content_world w) as (b & Hb). rewrite Hb in Hc.
  injection Hc as ->. unfold build_or_load_vectorstore.
  destruct (new_splitter X _ _) as [[]|e] eqn:En.
  - destruct (ingest_walk_returns (os_walk X (fs w) dir) []
                (set_log (log w ++ [EvProbe]) w)) as (recs & w1 & E).
    exists recs, w1. split; [exact E|].
    mstep ltac:(exact Hb).
    mstep ltac:(reflexivity).
    mstep ltac:(reflexivity).
    by mstep ltac:(exact E).
  - mstep ltac:(exact Hb).
    by erewrite bind_raise by reflexivity.
Qed.

(** C3, amended: a failure of the insert that is not the duplicate key
    leaves [upsert_parsed_doc] as the error of the server, with nothing
    stored.  For every file of the bootstrap, whatever parser it has and
    whatever the libraries do with it: either the server answered every call
    it got while the file was parsed, or it refused one, a lookup or the
    insert, no call came after that one and [parse_file_by_type] raised the
    error of the refusal; and when
    [parse_file_by_type] raises, the loop goes on with the next file, the
    records collected so far unchanged.  So the walk over the directory
    returns normally whatever the parsers and the server do. *)
Theorem store_failure_skips_the_file :
  (∀ path hash text meta0 f msg r w,
     fs w !! path = Some f → faults w = Some msg :: r →
     ∃ w', upsert_parsed_doc X path hash text meta0 w = (Raise (PyMongoError msg), w')
           ∧ coll w' = coll w
           ∧ refused msg w w')
  ∧ (∀ root fname rest acc w,
       startswith_dot fname = false →
       let p := parse_file_by_type X (path_join root fname) true
                  (set_log (log w ++ [EvParseFile (path_join root fname)]) w) in
       (answered w p.2 ∨ ∃ msg, refused msg w p.2 ∧ p.1 = Raise (PyMongoError msg))
       ∧ (∀ e, p.1 = Raise e →
               ingest_files X C root (fname :: rest) acc w
               = ingest_files X C root rest acc p.2))
  ∧ (∀ dirs acc w, ∃ recs w', ingest_walk X C dirs acc w = (Ok recs, w')).
Proof.
  split; [|split].
  - intros path hash text meta0 f msg r w E Hfl. eexists. split; [|split].
    + by eapply upsert_store_failure.
    + done.
    + exists 0%nat. by rewrite Hfl.
  - intros root fname rest acc w Hd p. split.
    + apply (surfaces_parse_file_by_type (path_join root fname) true
               (set_log (log w ++ [EvParseFile (path_join root fname)]) w)).
    + intros e. by apply ingest_files_skips.
  - apply ingest_walk_returns.
Qed.
End Store_failure.

(** C3 fails: the server refuses the insert for "in/notes.txt", the parser
    call raises that error, and the bootstrap returns normally with the
    other file indexed. *)
Lemma bootstrap_survives_store_failure :
  (parse_file_by_type demo_X "in/notes.txt" true demo_world_refusing).1
  = Raise (PyMongoError "connection refused")
  ∧ (build_or_load_vectorstore demo_X demo_C "in" demo_world_refusing).1 = Ok ()
  ∧ map file_hash (coll (build_or_load_vectorstore demo_X demo_C "in" demo_world_refusing).2)
    = ["d5-515"]
  ∧ map c_source (index (build_or_load_vectorstore demo_X demo_C "in" demo_world_refusing).2)
    = ["t.csv"].
Proof. vm_compute. done. Qed.

(** The insert for "in/notes.txt", which has no parser, is the first call
    of the server; for "in/bad.json" the lookup of the cache check is
    answered and the insert is refused. *)
Lemma store_failure_skips_the_file_witness :
  (∃ w', upsert_parsed_doc demo_X "in/notes.txt" "d2-209" (lit "hi") None demo_world_refusing
         = (Raise (PyMongoError "connection refused"), w')
         ∧ coll w' = coll demo_world_refusing
         ∧ refused "connection refused" demo_world_refusing w')
  ∧ (let p := parse_file_by_type demo_X "in/bad.json" true
                (set_log [EvParseFile "in/bad.json"] demo_world_insert_refused) in
     log p.2 = [EvParseFile "in/bad.json"; EvFind "d5-572"; EvJsonLoad "in/bad.json";
                EvRead "in/bad.json" 200000; EvInsert "d5-572"]
     ∧ ¬ answered demo_world_insert_refused p.2
     ∧ p.1 = Raise (PyMongoError "connection refused")
     ∧ ingest_files demo_X demo_C "in" ["bad.json"; "notes.txt"] [] demo_world_insert_refused
       = ingest_files demo_X demo_C "in" ["notes.txt"] [] p.2)
  ∧ (∃ recs w', ingest_walk demo_X demo_C [("in", ["bad.json"; "notes.txt"])] []
                  demo_world_insert_refused = (Ok recs, w')).
Proof.
  destruct (store_failure_skips_the_file demo_X demo_C) as (Hu & Hi & Hw).
  split; [|split].
  - apply (Hu "in/notes.txt" "d2-209" (lit "hi") None
              {| f_bytes := [104; 105]; f_mtime := 7 |} "connection refused" []);
      reflexivity.
  - intros p.
    destruct (Hi "in" "bad.json" ["notes.txt"] [] demo_world_insert_refused eq_refl
              : (answered demo_world_insert_refused p.2
                 ∨ ∃ msg, refused msg demo_world_insert_refused p.2
                          ∧ p.1 = Raise (PyMongoError msg))
                ∧ (∀ e, p.1 = Raise e →
                        ingest_files demo_X demo_C "in" ["bad.json"; "notes.txt"] []
                          demo_world_insert_refused
                        = ingest_files demo_X demo_C "in" ["notes.txt"] [] p.2))
      as (Hs & Hskip).
    assert (faults p.2 = []) as Hf by (vm_compute; reflexivity).
    assert (¬ answered demo_world_insert_refused p.2) as Hna.
    { intros [k E]. rewrite Hf, app_nil_r in E.
      destruct k as [|[|[|k]]]; discriminate E. }
    assert (p.1 = Raise (PyMongoError "connection refused")) as Hp.
    { destruct Hs as [Ha|(msg & [k E] & Hp)]; [done|].
      rewrite Hf in E. destruct k as [|[|k]]; try discriminate E.
      injection E as <-. exact Hp. }
    split; [vm_compute; reflexivity|]. split; [exact Hna|]. split; [exact Hp|].
    by eapply Hskip.
  - apply Hw.
Defined.

(** ** The CSV fall-back counts characters *)

(** C6 fails on the bound in bytes: "in/wide.csv" is the byte 0xFF and
    50001 times the two bytes of "é"; pandas rejects it, the text mode of
    the fall-back drops the byte 0xFF, and the block that is stored wraps
    the 50001 characters that are left, which take 100002 bytes. *)
Lemma csv_fallback_exceeds_100000_bytes :
  ∃ prefix,
    read_csv legacy_X "in/wide.csv" wide_bytes
    = Raise (UnicodeDecodeError
               "'utf-8' codec can't decode byte 0xff in position 0: invalid start byte")
    ∧ text_of_result (parse_csv_document legacy_X "in/wide.csv" true 500 wide_world).1
      = Ok (fence ++ nl ++ prefix ++ nl ++ fence)
    ∧ len prefix = 50001
    ∧ utf8_size prefix = 100002
    ∧ ¬ utf8_size prefix ≤ 100000.
Proof.
  set (f := {| f_bytes := wide_bytes; f_mtime := 1 |}).
  exists (take (Z.to_nat 100000) (text_of f)).
  split; [reflexivity|]. split.
  - destruct (parse_csv_fallback legacy_X "in/wide.csv" true 500 wide_world f
                (UnicodeDecodeError
                   "'utf-8' codec can't decode byte 0xff in position 0: invalid start byte"))
      as (w' & -> & _);
      [apply lookup_singleton_eq | reflexivity | apply Forall_nil_2 | reflexivity | reflexivity].
  - assert (utf8_size (take (Z.to_nat 100000) (text_of f)) = 100002) as ->
      by (vm_compute; reflexivity).
    split; [vm_compute; reflexivity|]. split; [reflexivity | lia].
Qed.

(** "in/legacy.csv" is the byte 0xFF and "a,b\n": pandas rejects it, and
    the block wraps "a,b\n". *)
Lemma csv_fallback_stores_prefix_witness :
  ∃ d w',
    parse_csv_document legacy_X "in/legacy.csv" true 500 legacy_world
    = (Ok (fence ++ nl ++ [97; 44; 98; 10] ++ nl ++ fence, not_cached "d5-504"), w')
    ∧ len [97; 44; 98; 10] ≤ 100000
    ∧ coll w' = [] ++ [d]
    ∧ file_hash d = "d5-504"
    ∧ md d = fence ++ nl ++ [97; 44; 98; 10] ++ nl ++ fence
    ∧ meta d = {[ "type" := VStr "csv";
                  "error" := VStr "'utf-8' codec can't decode byte 0xff in position 0: invalid start byte" ]}.
Proof.
  apply (csv_fallback_stores_prefix legacy_X "in/legacy.csv" true 500 legacy_world
           {| f_bytes := [255; 97; 44; 98; 10]; f_mtime := 3 |}
           (UnicodeDecodeError
              "'utf-8' codec can't decode byte 0xff in position 0: invalid start byte")).
  - reflexivity.
  - reflexivity.
  - apply Forall_nil_2.
  - reflexivity.
Defined.

(** ** The gate of the bootstrap *)

(** C5 fails when the probe raises: the index holds the record of "a.txt",
    [vectordb.get()] raises, lines 42-43 take the index for empty, and the
    bootstrap hands the two files of the directory to [parse_file_by_type]
    and adds their records after the one that was there. *)
Lemma probe_failure_ingests_into_a_filled_index :
  let r := build_or_load_vectorstore demo_X demo_C "in" demo_world_unprobed in
  map c_source (index demo_world_unprobed) = ["a.txt"]
  ∧ probe_fault demo_world_unprobed = Some "no such table: collections"
  ∧ r.1 = Ok ()
  ∧ parsed_files (log r.2) = ["in/notes.txt"; "in/t.csv"]
  ∧ last (log r.2) = Some (EvAddTexts 2)
  ∧ map c_source (index r.2) = ["a.txt"; "notes.txt"; "t.csv"].
Proof. intros r. repeat split; vm_compute; reflexivity. Qed.

Section Gate.
Context (X : externals) (C : config).

(** C5, amended: when the probe [vectordb.get()] answers and the index
    holds a record, [build_or_load_vectorstore] returns at once: apart from
    the probe nothing is logged, so no file is read, parsed or split and
    nothing is added.  When the index is empty or the probe raises, the
    splitter is constructed; if its constructor raises, that error leaves
    the function before any file is parsed; otherwise the directory is
    walked to its end and the records of the walk, if any, are added.  Hence
    any event of a run other than the probe shows that the index was empty
    or that the probe raised. *)
Theorem bootstrap_unless_probe_reports_records dir w :
  (probe_fault w = None → index w ≠ [] →
     build_or_load_vectorstore X C dir w = (Ok (), set_log (log w ++ [EvProbe]) w))
  ∧ (index w = [] ∨ probe_fault w ≠ None →
       match new_splitter X (CHUNK_SIZE C) (CHUNK_OVERLAP C) with
       | Ok _ =>
         ∃ recs w1,
           ingest_walk X C (os_walk X (fs w) dir) [] (set_log (log w ++ [EvProbe]) w)
           = (Ok recs, w1)
           ∧ build_or_load_vectorstore X C dir w
             = (if nonempty recs then add_texts recs else mret ()) w1
       | Raise e =>
         build_or_load_vectorstore X C dir w = (Raise e, set_log (log w ++ [EvProbe]) w)
       end)
  ∧ (∀ e, e ∈ log (build_or_load_vectorstore X C dir w).2 →
          e ∉ log w → e ≠ EvProbe → index w = [] ∨ probe_fault w ≠ None).
Proof.
  assert (probe_fault w = None → index w ≠ [] →
          build_or_load_vectorstore X C dir w = (Ok (), set_log (log w ++ [EvProbe]) w))
    as Hclosed.
  { intros Hp Hi. unfold build_or_load_vectorstore.
    mstep ltac:(by apply has_content_answered).
    destruct (index w) as [|c r] eqn:E; [done|].
    reflexivity. }
  split; [exact Hclosed|]. split.
  - intros Hw. apply build_after_the_probe.
    destruct (probe_fault w) as [msg|] eqn:Hp.
    + by erewrite has_content_probe_raises.
    + destruct Hw as [Hi|Hw]; [|done].
      rewrite has_content_answered by done. by rewrite Hi.
  - intros e He Hnew Hne.
    destruct (probe_fault w) as [msg|] eqn:Hp; [by right|].
    destruct (index w) as [|c r] eqn:E; [by left|].
    rewrite Hclosed in He by done. simpl in He.
    apply elem_of_app in He as [He|He]; [done|].
    by apply list_elem_of_singleton in He.
Qed.
End Gate.

(** An index with one record whose probe answers, the same index when the
    probe raises, and the empty index with a configuration the splitter
    refuses. *)
Lemma bootstrap_unless_probe_reports_records_witness :
  let w := set_index (index demo_world_unprobed) demo_world in
  let bad := {| INPUT_DIR := "in"; VECTORDB_DIR := "vectordb"; TOP_K := 5;
                CHUNK_SIZE := 100; CHUNK_OVERLAP := 200 |} in
  build_or_load_vectorstore demo_X demo_C "in" w = (Ok (), set_log (log w ++ [EvProbe]) w)
  ∧ (∃ recs w1,
       ingest_walk demo_X demo_C (os_walk demo_X (fs demo_world_unprobed) "in") []
         (set_log (log demo_world_unprobed ++ [EvProbe]) demo_world_unprobed)
       = (Ok recs, w1)
       ∧ build_or_load_vectorstore demo_X demo_C "in" demo_world_unprobed
         = (if nonempty recs then add_texts recs else mret ()) w1)
  ∧ build_or_load_vectorstore demo_X bad "in" demo_world
    = (Raise (ValueError "Got a larger chunk overlap (200) than chunk size (100), should be smaller."),
       set_log (log demo_world ++ [EvProbe]) demo_world).
Proof.
  intros w bad. split; [|split].
  - apply (bootstrap_unless_probe_reports_records demo_X demo_C "in" w);
      [reflexivity | discriminate].
  - apply (bootstrap_unless_probe_reports_records demo_X demo_C "in" demo_world_unprobed).
    right. discriminate.
  - apply (bootstrap_unless_probe_reports_records demo_X bad "in" demo_world).
    left. reflexivity.
Defined.

(** ** The query *)

Section Query.
Context (X : externals) (C : config).

(** C8: when the search returns no chunk for a query that is not empty,
    the query phase prints "Data not found!" and returns normally; it logs
    the prompt, the search and that line only, so the agent is not invoked
    and the handler of line 133 does not run. *)
Theorem empty_retrieval_is_terminal line w :
  nonempty (strip line) = true →
  similarity_search X (index w) (strip line) (TOP_K C) = Ok [] →
  ∃ w', query_phase X C line w = (Ok (), w')
    ∧ log w' = log w ++ [EvPrint (lit "Please Enter the user query below..." ++ nl ++ lit "> ");
                         EvSearch (strip line);
                         EvPrint (lit "Data not found!")]
    ∧ index w' = index w
    ∧ (∀ p, EvInvoke p ∈ log w' → EvInvoke p ∈ log w).
Proof.
  intros Hq Hs. eexists. split.
  - unfold query_phase, try_except, ask.
    erewrite bind_ok by apply emit_ok. cbn beta iota zeta. rewrite Hq. cbn [negb].
    erewrite bind_ok by apply emit_ok.
    erewrite bind_ok by (unfold act; simpl; rewrite Hs; reflexivity).
    simpl. reflexivity.
  - simpl. split; [by rewrite <- !app_assoc|]. split; [done|].
    intros p Hin. rewrite !elem_of_app in Hin.
    destruct Hin as [[[Hin|Hin]|Hin]|Hin]; [done|..];
      by apply list_elem_of_singleton in Hin.
Qed.

(** [main] hands [build_or_load_vectorstore] two arguments, the function
    takes one: the call raises, the handler of line 93 prints and returns,
    and the query is not read. *)
Lemma main_returns_at_the_build_call line w :
  main X C line w
  = (Ok (),
     set_log ((log w ++ [EvPrint (lit "[start] building/loading vectorstore...")])
              ++ [EvPrint (lit "Vectorstore init failed: "
                           ++ lit "build_or_load_vectorstore() takes 1 positional argument but 2 were given")])
       w).
Proof. reflexivity. Qed.
End Query.

Lemma empty_retrieval_is_terminal_witness :
  ∃ w', query_phase demo_X demo_C (lit " hi ") demo_world = (Ok (), w')
    ∧ log w' = log demo_world
               ++ [EvPrint (lit "Please Enter the user query below..." ++ nl ++ lit "> ");
                   EvSearch (strip (lit " hi "));
                   EvPrint (lit "Data not found!")]
    ∧ index w' = index demo_world
    ∧ (∀ p, EvInvoke p ∈ log w' → EvInvoke p ∈ log demo_world).
Proof.
  apply (empty_retrieval_is_terminal demo_X demo_C (lit " hi ") demo_world); reflexivity.
Defined.

(** ** The theorems at the small installation *)

Lemma upsert_parsed_doc_race_witness :
  ∃ d w',
    upsert_parsed_doc demo_X "in/notes.txt" "d2-209" (lit "a later text") None
      demo_world_cached = (Ok d, w')
    ∧ file_hash d = "d2-209"
    ∧ d ∈ coll w'
    ∧ unique_hashes (coll w')
    ∧ (∀ d', d' ∈ coll w' → file_hash d' = "d2-209" → d' = d)
    ∧ (∀ winner, winner ∈ coll demo_world_cached → file_hash winner = "d2-209" →
         d = winner ∧ coll w' = coll demo_world_cached).
Proof.
  apply (upsert_parsed_doc_race demo_X "in/notes.txt" "d2-209" (lit "a later text") None
           demo_world_cached).
  - vm_compute. apply NoDup_singleton.
  - exists {| f_bytes := [104; 105]; f_mtime := 7 |}. reflexivity.
  - apply Forall_nil_2.
Defined.

Lemma json_fallback_prefix_and_marker_witness :
  let f := {| f_bytes := [123; 111; 111; 112; 115]; f_mtime := 9 |} in
  let prefix := take (Z.to_nat 5) (text_of f) in
  ∃ body w',
    parse_json_document demo_X "in/bad.json" true 5 demo_world
    = (Ok (lit "```json" ++ nl ++ body ++ nl ++ fence,
           not_cached (sha256 demo_X (f_bytes f))), w')
    ∧ len prefix ≤ 5
    ∧ (body = prefix ++ truncated_marker ↔ len prefix = 5)
    ∧ (len prefix < 5 → body = prefix).
Proof.
  intros f.
  apply (json_fallback_prefix_and_marker demo_X "in/bad.json" true 5 demo_world f
           (JSONDecodeError "Expecting value")).
  - reflexivity.
  - reflexivity.
  - lia.
  - apply Forall_nil_2.
  - reflexivity.
Defined.

Lemma reachable_all_typed_witness :
  all_typed (coll (build_or_load_vectorstore demo_X demo_C "in" demo_world).2).
Proof.
  apply (reachable_all_typed demo_X).
  apply reach_bootstrap, reach_empty. reflexivity.
Defined.

Lemma html_reads_bounded_input_witness :
  text_of_result (parse_html_document demo_X "in/p.html" true 3 demo_world).1
  = text_of_result (parse_html_document demo_X "in/q.html" true 3 demo_world).1.
Proof.
  apply (html_reads_bounded_input demo_X "in/p.html" "in/q.html" true 3
           demo_world demo_world
           {| f_bytes := [97; 98; 99; 100]; f_mtime := 10 |}
           {| f_bytes := [97; 98; 99; 101; 102]; f_mtime := 11 |}).
  - lia.
  - reflexivity.
  - reflexivity.
  - apply Forall_nil_2.
  - apply Forall_nil_2.
  - reflexivity.
  - reflexivity.
  - reflexivity.
Defined.

(** ** Several writers of one digest *)

Section Writers.
Context (X : externals).

(** Alone, a process makes the three steps of [upsert_parsed_doc]. *)
Lemma run_alone path hash text meta0 w :
  run X [0; 0; 0]%nat ([Calling path hash text meta0], w)
  = ([Returned (upsert_parsed_doc X path hash text meta0 w).1],
     (upsert_parsed_doc X path hash text meta0 w).2).
Proof.
  unfold run, sys_step, upsert_parsed_doc. simpl.
  unfold os_stat, open_, time_time, gets, try_except, mbind, M_bind, bind, mret, M_ret, ret.
  destruct (fs w !! path) as [f|]; simpl; [|done].
  destruct (insert_one _ w) as [[[]|e] w1]; simpl; [done|].
  destruct e; simpl; try done.
  by destruct (get_cached_parse hash w1) as [[c|e] w2].
Qed.

Lemma proc_step_coll p w c : c ∈ coll w → c ∈ coll (proc_step X p w).2.
Proof.
  intros Hc. destruct p as [path hash text meta0|d|d|r]; simpl.
  - unfold os_stat, open_, time_time, gets, mbind, M_bind, bind, mret, M_ret, ret.
    by destruct (fs w !! path).
  - unfold insert_one, emit, store_call, act, mbind, M_bind, bind. simpl.
    destruct (faults w) as [|[msg|] r]; simpl; try done.
    + destruct (existsb _ _); simpl; [done|]. apply elem_of_app. by left.
    + destruct (existsb _ _); simpl; [done|]. apply elem_of_app. by left.
  - unfold get_cached_parse, find_one, emit, store_call, gets, mbind, M_bind, bind. simpl.
    by destruct (faults w) as [|[msg|] r].
  - done.
Qed.

Lemma proc_ok_mono hash p w w' :
  (∀ c, c ∈ coll w → c ∈ coll w') → proc_ok hash w p → proc_ok hash w' p.
Proof.
  intros Hsub. destruct p as [path h text meta0|d|d|[d|e]]; simpl; try done.
  - intros [Hh (c & Hc & He)]. eauto.
  - intros [Hh Hd]. auto.
Qed.

Lemma insert_one_cases d w :
  (∃ msg w', insert_one d w = (Raise (PyMongoError msg), w') ∧ coll w' = coll w)
  ∨ (∃ w', insert_one d w = (Raise DuplicateKeyError, w') ∧ coll w' = coll w
           ∧ existsb (has_hash (file_hash d)) (coll w) = true)
  ∨ (∃ w', insert_one d w = (Ok (), w') ∧ coll w' = coll w ++ [d]
           ∧ existsb (has_hash (file_hash d)) (coll w) = false).
Proof.
  unfold insert_one, emit, store_call, act, mbind, M_bind, bind. simpl.
  destruct (faults w) as [|[msg|] r]; simpl.
  - destruct (existsb _ _) eqn:E; [right; left | right; right]; eauto.
  - left. eauto.
  - destruct (existsb _ _) eqn:E; [right; left | right; right]; eauto.
Qed.

Lemma find_one_cases h w :
  (∃ msg w', find_one h w = (Raise (PyMongoError msg), w') ∧ coll w' = coll w)
  ∨ (∃ w', find_one h w = (Ok (List.find (has_hash h) (coll w)), w') ∧ coll w' = coll w).
Proof.
  unfold find_one, emit, store_call, gets, mbind, M_bind, bind. simpl.
  destruct (faults w) as [|[msg|] r]; simpl; eauto.
Qed.

(** The step of one process keeps the index unique and leaves the process
    in a state that fits the collection. *)
Lemma proc_step_ok hash p w :
  unique_hashes (coll w) → proc_ok hash w p →
  unique_hashes (coll (proc_step X p w).2)
  ∧ proc_ok hash (proc_step X p w).2 (proc_step X p w).1.
Proof.
  intros Hu Hp. destruct p as [path h text meta0|d|d|r]; simpl in *.
  - unfold os_stat, open_, time_time, gets, mbind, M_bind, bind, mret, M_ret, ret.
    by destruct (fs w !! path).
  - destruct (insert_one_cases d w)
      as [(msg & w' & -> & Hc)|[(w' & -> & Hc & He)|(w' & -> & Hc & He)]];
      simpl; rewrite Hc.
    + done.
    + split; [done|]. split; [done|].
      apply existsb_has_hash in He as (c & Hin & Hh). exists c. split; [done | congruence].
    + split; [by apply unique_hashes_snoc|]. split; [done|].
      apply elem_of_app. right. by apply list_elem_of_singleton.
  - destruct Hp as [Hh (c & Hin & Hc)]. unfold get_cached_parse.
    destruct (find_one_cases (file_hash d) w)
      as [(msg & w' & -> & Hcoll)|(w' & -> & Hcoll)]; simpl; rewrite Hcoll; [done|].
    + split; [done|].
      destruct (List.find _ (coll w)) as [c'|] eqn:E.
      * apply find_some in E as [Hin' Hh']. apply String.eqb_eq in Hh'.
        split; [congruence | by apply list_elem_of_In].
      * exfalso. apply list_elem_of_In in Hin.
        pose proof (find_none _ _ E c Hin) as Hf. unfold has_hash in Hf.
        rewrite Hc, Hh, String.eqb_refl in Hf. done.
  - done.
Qed.

Lemma sys_step_ok hash i s : sys_ok hash s → sys_ok hash (sys_step X i s).
Proof.
  destruct s as [ps w]. intros [Hu Hps]. unfold sys_step. simpl.
  destruct (ps !! i) as [p|] eqn:E; [|done].
  assert (proc_ok hash w p) as Hp by (eapply Forall_lookup_1; eauto).
  destruct (proc_step_ok hash p w Hu Hp) as [Hu' Hp'].
  pose proof (proc_step_coll p w) as Hsub.
  destruct (proc_step X p w) as [p' w']. simpl in *.
  split; [done|]. apply Forall_insert; [|done].
  eapply Forall_impl; [exact Hps|]. intros q. by apply proc_ok_mono.
Qed.

Lemma run_ok hash sched s : sys_ok hash s → sys_ok hash (run X sched s).
Proof.
  revert s. induction sched as [|i sched IH]; intros s Hs; [done|].
  simpl. apply IH. by apply sys_step_ok.
Qed.

(** However the calls of processes that write one digest interleave, the
    collection keeps one record for a digest, every process that has
    returned a record has returned the one record of that digest in the
    collection, and so all of them hold the same record. *)
Theorem interleaved_upserts_agree hash ps sched w :
  unique_hashes (coll w) →
  Forall (λ p, ∃ path text meta0, p = Calling path hash text meta0) ps →
  let s' := run X sched (ps, w) in
  unique_hashes (coll s'.2)
  ∧ ∀ d, Returned (Ok d) ∈ s'.1 →
      file_hash d = hash ∧ d ∈ coll s'.2
      ∧ ∀ d', Returned (Ok d') ∈ s'.1 → d' = d.
Proof.
  intros Hu Hps s'.
  assert (sys_ok hash s') as [Hu' Hok].
  { apply run_ok. split; [done|]. simpl.
    eapply Forall_impl; [exact Hps|]. by intros p (path & text & meta0 & ->). }
  split; [done|]. intros d Hd.
  pose proof (proj1 (Forall_forall _ _) Hok _ Hd) as [Hh Hin]. simpl in Hh, Hin.
  split; [done|]. split; [done|]. intros d' Hd'.
  pose proof (proj1 (Forall_forall _ _) Hok _ Hd') as [Hh' Hin']. simpl in Hh', Hin'.
  apply (unique_hashes_eq (coll s'.2)); [done..|congruence].
Qed.
End Writers.

(** Two processes ingest a file and its copy.  Both build their document,
    the second inserts first, the first meets the duplicate key and reads
    the collection again: both return the record of the second. *)
Example race_of_two_writers :
  let calls := [Calling "in/notes.txt" "d2-209" (lit "hi") (Some {[ "type" := VStr "txt_or_other" ]});
                Calling "in/copy.txt" "d2-209" (lit "hi") (Some {[ "type" := VStr "txt_or_other" ]})] in
  let s := run demo_X [0; 1; 1; 0; 0]%nat (calls, demo_world) in
  ∃ d, s.1 = [Returned (Ok d); Returned (Ok d)]
       ∧ coll s.2 = [d]
       ∧ file_path d = "/srv/in/copy.txt".
Proof.
  intros calls s. eexists. split; [vm_compute; reflexivity|].
  split; vm_compute; reflexivity.
Qed.

(** * Further properties of the two modules *)

(** ** A file that is not there *)

Section Missing_file.
Context (X : externals).

End Missing_file.


(** ** The unique index in every reachable state *)

(** X2: in every state of the collection that the parsers and the bootstrap
    can produce from an empty one, no two records have the same
    [file_hash]. *)
Theorem reachable_unique_hashes X w : reachable X w → unique_hashes (coll w).
Proof.
  assert (∀ c d, unique_hashes c → existsb (has_hash (file_hash d)) c = false →
                 has_type (meta d) = true → unique_hashes (c ++ [d])) as Hs
    by (intros c d Hc Hf _; by apply unique_hashes_snoc).
  induction 1 as [w E|w w' _ IH E|w path uc _ IH|w path uc n _ IH
                  |w path uc n _ IH|w path uc n _ IH|w path uc _ IH|w C dir _ IH].
  - rewrite E. apply NoDup_nil_2.
  - by rewrite E.
  - by apply (coll_inv_pdf X unique_hashes Hs).
  - by apply (coll_inv_csv X unique_hashes Hs).
  - by apply (coll_inv_json X unique_hashes Hs).
  - by apply (coll_inv_html X unique_hashes Hs).
  - by apply (coll_inv_parse_file_by_type X unique_hashes Hs).
  - by apply (coll_inv_build X C unique_hashes Hs).
Qed.

Lemma reachable_unique_hashes_witness :
  unique_hashes (coll (build_or_load_vectorstore demo_X demo_C "in" demo_world).2).
Proof.
  apply (reachable_unique_hashes demo_X).
  apply reach_bootstrap, reach_empty. reflexivity.
Defined.

(** ** The cache check of the four parsers, and the branch without one *)

(** X3: for a path whose extension, in any case of letters, is .pdf, .csv,
    .json, .html or .htm, a call with [use_cache = true] on a file whose
    digest has a record returns the [md] of that record with the status
    [cached: True], the digest and the record's [cached_at]; the world gains
    the lookup and nothing else (no library call, no insert). *)
Theorem parser_extension_hit_short_circuits X path w f c :
  lower (splitext_ext path) ∈ parser_extensions →
  fs w !! path = Some f → server_up w →
  List.find (has_hash (sha256 X (f_bytes f))) (coll w) = Some c →
  parse_file_by_type X path true w
  = (Ok (md c, cached_status (sha256 X (f_bytes f)) c), looked_up (sha256 X (f_bytes f)) w).
Proof. apply dispatch_hit. Qed.

Lemma parser_extension_hit_short_circuits_witness :
  ∃ c, List.find (has_hash "d4-394") (coll demo_world_paged) = Some c
    ∧ parse_file_by_type demo_X "in/p.html" true demo_world_paged
      = (Ok (md c, cached_status "d4-394" c), looked_up "d4-394" demo_world_paged).
Proof.
  eexists. split; [vm_compute; reflexivity|].
  apply (parser_extension_hit_short_circuits demo_X "in/p.html" demo_world_paged
           {| f_bytes := [97; 98; 99; 100]; f_mtime := 10 |}).
  - vm_compute. set_solver.
  - reflexivity.
  - apply Forall_nil_2.
  - vm_compute. reflexivity.
Defined.

(** X4: for a path with any other extension (or none), [use_cache] has no
    effect.  When the digest of the file has a record, the call reads the
    file, sends the insert, which the unique index refuses, and returns the
    [md] of the stored record through the handler of the duplicate key, with
    the status [cached: False]; the collection is unchanged. *)
Theorem other_extension_never_checks_cache X path uc w f c :
  lower (splitext_ext path) ∉ parser_extensions →
  fs w !! path = Some f → server_up w →
  List.find (has_hash (sha256 X (f_bytes f))) (coll w) = Some c →
  ∃ w', parse_file_by_type X path uc w
        = (Ok (md c, not_cached (sha256 X (f_bytes f))), w')
    ∧ log w' = log w ++ [EvRead path 200000; EvInsert (sha256 X (f_bytes f));
                         EvFind (sha256 X (f_bytes f))]
    ∧ coll w' = coll w.
Proof. apply plain_branch_ignores_use_cache. Qed.

Lemma other_extension_never_checks_cache_witness :
  ∃ c w', List.find (has_hash "d2-209") (coll demo_world_cached) = Some c
    ∧ parse_file_by_type demo_X "in/notes.txt" false demo_world_cached
      = (Ok (md c, not_cached "d2-209"), w')
    ∧ log w' = log demo_world_cached
               ++ [EvRead "in/notes.txt" 200000; EvInsert "d2-209"; EvFind "d2-209"]
    ∧ coll w' = coll demo_world_cached.
Proof.
  eexists.
  destruct (other_extension_never_checks_cache demo_X "in/notes.txt" false demo_world_cached
              {| f_bytes := [104; 105]; f_mtime := 7 |}
              (new_doc demo_X "in/notes.txt" "d2-209" (lit "hi")
                 (Some {[ "type" := VStr "txt_or_other" ]})
                 {| f_bytes := [104; 105]; f_mtime := 7 |} 100))
    as (w' & Hp & Hl & Hc).
  - apply (bool_decide_unpack _). vm_compute. exact I.
  - reflexivity.
  - apply Forall_nil_2.
  - vm_compute. reflexivity.
  - exists w'. split; [vm_compute; reflexivity|]. split; [exact Hp|]. split; [exact Hl | exact Hc].
Defined.

(** ** What the parsers keep of the world *)

Lemma winv_ret {A} I (a : A) : winv I (mret a).
Proof. by intros w H. Qed.

Lemma winv_raise {A} I e : winv I (raise (A:=A) e).
Proof. by intros w H. Qed.

Lemma winv_lift {A} I (r : res A) : winv I (lift r).
Proof. by intros w H. Qed.

Lemma winv_gets {A} I (f : world → A) : winv I (gets f).
Proof. by intros w H. Qed.

Lemma winv_open I path : winv I (open_ path).
Proof. intros w H. unfold open_. by destruct (fs w !! path). Qed.

Lemma winv_bind {A B} I (m : M A) (k : A → M B) :
  winv I m → (∀ a, winv I (k a)) → winv I (m ≫= k).
Proof.
  intros Hm Hk w H. unfold mbind, M_bind, bind.
  specialize (Hm w H). destruct (m w) as [[a|e] w']; simpl in *; [|done].
  by apply Hk.
Qed.

Lemma winv_try {A} I sel (m : M A) h :
  winv I m → (∀ e, winv I (h e)) → winv I (try_except sel m h).
Proof.
  intros Hm Hh w H. unfold try_except.
  specialize (Hm w H). destruct (m w) as [[a|e] w']; simpl in *; [done|].
  destruct (sel e); [by apply Hh | done].
Qed.

Lemma winv_attempt {A} I (m : M A) : winv I m → winv I (attempt m).
Proof.
  intros Hm w H. unfold attempt. specialize (Hm w H).
  by destruct (m w) as [r w'].
Qed.

Create HintDb winv discriminated.
#[global] Hint Resolve winv_ret winv_raise winv_lift winv_gets winv_open : winv.

Ltac winv_walk :=
  repeat first
    [ solve [auto with winv nocore]
    | match goal with
      | |- winv _ (mbind _ _) => apply winv_bind; [| intros ?]
      | |- winv _ (try_except _ _ _) => apply winv_try; [| intros ?]
      | |- winv _ (attempt _) => apply winv_attempt
      | |- winv _ (match ?x with _ => _ end) => destruct x
      end ].

Section World_invariant.
Context (X : externals) (I : world → Prop).
Hypothesis I_log : ∀ w e, I w → I (set_log (log w ++ [e]) w).
Hypothesis I_pop : ∀ w x r, I w → faults w = x :: r → I (set_faults r w).
Hypothesis I_coll : ∀ w c, I w → I (set_coll c w).

Lemma winv_emit e : winv I (emit e).
Proof. intros w H. by apply I_log. Qed.

Lemma winv_store_call {A} (op : M A) : winv I op → winv I (store_call op).
Proof.
  intros Hop w H. unfold store_call.
  destruct (faults w) as [|[msg|] r] eqn:E; simpl.
  - by apply Hop.
  - by eapply I_pop.
  - apply Hop. by eapply I_pop.
Qed.

Lemma winv_find_one h : winv I (find_one h).
Proof.
  apply winv_bind; [apply winv_emit | intros _].
  apply winv_store_call, winv_gets.
Qed.

Lemma winv_insert_one d : winv I (insert_one d).
Proof.
  apply winv_bind; [apply winv_emit | intros _].
  apply winv_store_call. intros w H. unfold act.
  destruct (existsb _ _); [done|]. by apply I_coll.
Qed.

Hint Resolve winv_emit winv_find_one winv_insert_one : winv.

Lemma winv_upsert_parsed_doc path hash text meta0 :
  winv I (upsert_parsed_doc X path hash text meta0).
Proof. unfold upsert_parsed_doc, os_stat, time_time, get_cached_parse. winv_walk. Qed.

Lemma winv_upsert path hash text m : winv I (upsert X path hash text m).
Proof. apply winv_upsert_parsed_doc. Qed.

Lemma winv_sha256_of_file path : winv I (sha256_of_file X path).
Proof. unfold sha256_of_file. winv_walk. Qed.

Lemma winv_read_text path n : winv I (read_text path n).
Proof. unfold read_text. winv_walk. Qed.

Lemma winv_exists path : winv I (exists_ path).
Proof. unfold exists_. winv_walk. Qed.

Lemma winv_cache_hit uc h : winv I (cache_hit uc h).
Proof. unfold cache_hit, get_cached_parse. winv_walk. Qed.

Hint Resolve winv_upsert winv_sha256_of_file winv_read_text winv_exists
  winv_cache_hit : winv.

Lemma winv_pdf path uc : winv I (parse_pdf_document X path uc).
Proof. unfold parse_pdf_document. winv_walk. Qed.

Lemma winv_csv path uc n : winv I (parse_csv_document X path uc n).
Proof. unfold parse_csv_document. winv_walk. Qed.

Lemma winv_json path uc n : winv I (parse_json_document X path uc n).
Proof. unfold parse_json_document. winv_walk. Qed.

Lemma winv_html path uc n : winv I (parse_html_document X path uc n).
Proof. unfold parse_html_document. winv_walk. Qed.

Hint Resolve winv_pdf winv_csv winv_json winv_html : winv.

Lemma winv_parse_file_by_type path uc : winv I (parse_file_by_type X path uc).
Proof. unfold parse_file_by_type. winv_walk. Qed.
End World_invariant.

(** The parsers leave the files alone, and a server that answers goes on
    answering. *)
Lemma parse_keeps_fs X path uc w : fs (parse_file_by_type X path uc w).2 = fs w.
Proof. by apply (winv_parse_file_by_type X (λ w', fs w' = fs w)). Qed.

Lemma parse_keeps_server_up X path uc w :
  server_up w → server_up (parse_file_by_type X path uc w).2.
Proof.
  apply (winv_parse_file_by_type X server_up); try done.
  intros w0 x r H E. unfold server_up in *. simpl. rewrite E in H. by inversion H.
Qed.

(** ** Insert, then look up *)

Lemma find_snoc_fresh (c : list doc) d :
  existsb (has_hash (file_hash d)) c = false →
  List.find (has_hash (file_hash d)) (c ++ [d]) = Some d.
Proof.
  intros Hf. induction c as [|x c IH]; simpl in *.
  - unfold has_hash. by rewrite String.eqb_refl.
  - apply orb_false_iff in Hf as [Hx Hc]. rewrite Hx. by apply IH.
Qed.

Lemma find_existsb h (c : list doc) :
  existsb (has_hash h) c = true → ∃ d, List.find (has_hash h) c = Some d.
Proof.
  induction c as [|x c IH]; simpl; [done|].
  destruct (has_hash h x); [by eauto | exact IH].
Qed.

Lemma find_snoc_found h (c : list doc) d x :
  List.find (has_hash h) c = Some d → List.find (has_hash h) (c ++ [x]) = Some d.
Proof.
  induction c as [|y c IH]; simpl; [done|].
  destruct (has_hash h y); [done | exact IH].
Qed.

Section Round_trip.
Context (X : externals).

(** The record a call of [upsert_parsed_doc] returns is the one the lookup
    of its digest selects in the world the call leaves. *)
Lemma upsert_result_found path hash text meta0 w d w' :
  upsert_parsed_doc X path hash text meta0 w = (Ok d, w') →
  List.find (has_hash hash) (coll w') = Some d.
Proof.
  unfold upsert_parsed_doc, os_stat, open_, time_time, gets, try_except,
    mbind, M_bind, bind, mret, M_ret, ret.
  destruct (fs w !! path) as [f|]; simpl; [|done].
  set (d0 := {| file_hash := hash |}).
  destruct (insert_one_cases d0 w)
    as [(msg & w1 & -> & Hc)|[(w1 & -> & Hc & He)|(w1 & -> & Hc & He)]]; simpl.
  - done.
  - unfold get_cached_parse.
    destruct (find_one_cases hash w1) as [(msg & w2 & -> & Hc2)|(w2 & -> & Hc2)]; [done|].
    intros [= <- <-]. rewrite Hc2, Hc.
    apply find_existsb in He as [c Hfc]. simpl in Hfc. by rewrite Hfc.
  - intros [= <- <-]. rewrite Hc. by apply (find_snoc_fresh (coll w) d0).
Qed.

(** X5: after a call of [upsert_parsed_doc] that returned a record, a lookup
    of the digest that the server answers returns that record: the new one
    when the insert went through, the stored one when the insert met the
    duplicate key. *)
Theorem upsert_then_lookup path hash text meta0 w d w' :
  upsert_parsed_doc X path hash text meta0 w = (Ok d, w') →
  server_up w' →
  get_cached_parse hash w' = (Ok (Some d), looked_up hash w').
Proof.
  intros Hu Hup. unfold get_cached_parse. rewrite find_one_up by done.
  by rewrite (upsert_result_found _ _ _ _ _ _ _ Hu).
Qed.
End Round_trip.

Lemma upsert_then_lookup_witness :
  let r := upsert_parsed_doc demo_X "in/copy.txt" "d2-209" (lit "hi") None demo_world_cached in
  ∃ d, r = (Ok d, r.2)
    ∧ file_path d = "/srv/in/notes.txt"
    ∧ get_cached_parse "d2-209" r.2 = (Ok (Some d), looked_up "d2-209" r.2).
Proof.
  intros r. eexists. split; [vm_compute; reflexivity|]. split; [reflexivity|].
  apply (upsert_then_lookup demo_X "in/copy.txt" "d2-209" (lit "hi") None demo_world_cached).
  - vm_compute. reflexivity.
  - apply Forall_nil_2.
Defined.

(** ** What a parser returns is what the cache holds *)

Lemma ensures_bind {A B} P (m : M A) (k : A → M B) R Q :
  ensures P m R → (∀ a, ensures (R a) (k a) Q) → ensures P (m ≫= k) Q.
Proof.
  intros Hm Hk w HP. unfold mbind, M_bind, bind. specialize (Hm w HP).
  destruct (m w) as [[a|e] w1]; [|done]. by apply Hk.
Qed.

Lemma ensures_skip {A B} P (m : M A) (k : A → M B) Q :
  (∀ a, ensures (λ _, True) (k a) Q) → ensures P (m ≫= k) Q.
Proof.
  intros Hk. apply (ensures_bind P m k (λ _ _, True)); [|done].
  intros w _. by destruct (m w) as [[a|e] w1].
Qed.

Lemma ensures_pre {A} (P P' : world → Prop) (m : M A) Q :
  (∀ w, P w → P' w) → ensures P' m Q → ensures P m Q.
Proof. intros HP Hm w Hw. apply Hm. by apply HP. Qed.

Lemma ensures_ret {A} (P : world → Prop) (a : A) (Q : A → world → Prop) :
  (∀ w, P w → Q a w) → ensures P (mret a) Q.
Proof. intros H w HP. by apply H. Qed.

Lemma ensures_raise {A} P e (Q : A → world → Prop) : ensures P (raise e) Q.
Proof. by intros w HP. Qed.

Section Cached_result.
Context (X : externals) (tree : gmap string file).

Lemma ensures_exists path :
  ensures (λ w, fs w = tree) (exists_ path) (λ _ w, fs w = tree).
Proof. by intros w H. Qed.

Lemma ensures_read_text path n :
  ensures (λ w, fs w = tree) (read_text path n) (λ _ w, fs w = tree).
Proof.
  intros w H. unfold read_text, open_, mbind, M_bind, bind.
  by destruct (fs w !! path).
Qed.

Lemma ensures_sha256_of_file path :
  ensures (λ w, fs w = tree) (sha256_of_file X path)
    (λ h _, ∃ f, tree !! path = Some f ∧ h = sha256 X (f_bytes f)).
Proof.
  intros w H. unfold sha256_of_file, open_, mbind, M_bind, bind. rewrite H.
  destruct (tree !! path) as [f|]; simpl; eauto.
Qed.

Lemma ensures_cache_hit uc f path :
  tree !! path = Some f →
  ensures (λ _, True) (cache_hit uc (sha256 X (f_bytes f)))
    (λ hit w, ∀ r, hit = Some r → cached_as X tree path r w).
Proof.
  intros Hf w _. unfold cache_hit. destruct uc; [|done].
  unfold get_cached_parse, mbind, M_bind, bind.
  destruct (find_one_cases (sha256 X (f_bytes f)) w)
    as [(msg & w1 & -> & Hc)|(w1 & -> & Hc)]; [done|].
  destruct (List.find _ (coll w)) as [c|] eqn:E; simpl; [|done].
  intros r [= <-]. exists f, c. rewrite Hc. repeat split; try done.
Qed.

(** The last two lines of every branch: store, and return the [md] of what
    was stored. *)
Lemma ensures_upsert_return path f text m (st : doc → pydict) :
  tree !! path = Some f →
  (∀ d, st d !! "file_hash" = Some (VStr (sha256 X (f_bytes f)))) →
  ensures (λ _, True)
    (stored ← upsert X path (sha256 X (f_bytes f)) text m; mret (md stored, st stored))
    (cached_as X tree path).
Proof.
  intros Hf Hst w _. unfold mbind, M_bind, bind, upsert.
  destruct (upsert_parsed_doc X path _ text (Some m) w) as [[d|e] w1] eqn:E; [|done].
  exists f, d. split; [done|]. split; [apply Hst|]. split; [|done].
  by apply (upsert_result_found X _ _ _ _ _ _ _ E).
Qed.

Lemma ensures_pure {A} (φ : Prop) (m : M A) Q :
  (φ → ensures (λ _, True) m Q) → ensures (λ _, φ) m Q.
Proof. intros H w Hφ. by apply H. Qed.

(** After the digest is known: the cache check, then whatever the branch
    does up to its last two lines. *)
Ltac to_the_return :=
  repeat first
    [ solve [apply ensures_upsert_return; [done | intros ?; reflexivity]]
    | apply ensures_raise
    | progress cbv zeta
    | match goal with
      | |- ensures _ (match ?x with _ => _ end) _ => destruct x
      end
    | apply ensures_skip; intros ? ].

Ltac after_the_digest uc path :=
  let f := fresh "f" in let Hf := fresh "Hf" in let hit := fresh "hit" in
  let r := fresh "r" in let w := fresh "w" in let H := fresh "H" in
  cbv beta; apply ensures_pure; intros (f & Hf & ->);
  eapply ensures_bind; [by apply (ensures_cache_hit uc f path) | intros hit];
  destruct hit as [r|];
    [ apply ensures_ret; intros w H; by apply H
    | apply (ensures_pre _ (λ _, True)); [done|]; to_the_return ].

Ltac to_the_digest path :=
  let ex := fresh "ex" in let h := fresh "h" in
  eapply ensures_bind; [apply ensures_exists | intros ex];
  destruct ex; simpl; [| apply ensures_raise];
  eapply ensures_bind; [apply ensures_sha256_of_file | intros h].

Lemma ensures_pdf path uc :
  ensures (λ w, fs w = tree) (parse_pdf_document X path uc) (cached_as X tree path).
Proof. unfold parse_pdf_document. to_the_digest path. after_the_digest uc path. Qed.

Lemma ensures_csv path uc n :
  ensures (λ w, fs w = tree) (parse_csv_document X path uc n) (cached_as X tree path).
Proof. unfold parse_csv_document. to_the_digest path. after_the_digest uc path. Qed.

Lemma ensures_json path uc n :
  ensures (λ w, fs w = tree) (parse_json_document X path uc n) (cached_as X tree path).
Proof. unfold parse_json_document. to_the_digest path. after_the_digest uc path. Qed.

Lemma ensures_html path uc n :
  ensures (λ w, fs w = tree) (parse_html_document X path uc n) (cached_as X tree path).
Proof. unfold parse_html_document. to_the_digest path. after_the_digest uc path. Qed.

Lemma ensures_parse_file_by_type path uc :
  ensures (λ w, fs w = tree) (parse_file_by_type X path uc) (cached_as X tree path).
Proof.
  unfold parse_file_by_type.
  repeat case_match;
    [ apply ensures_pdf | apply ensures_csv | apply ensures_json | apply ensures_html | ].
  eapply ensures_bind; [apply ensures_read_text | intros text].
  eapply ensures_bind; [apply ensures_sha256_of_file | intros h].
  cbv beta. apply ensures_pure; intros (f & Hf & ->). to_the_return.
Qed.
End Cached_result.

(** For the statements: the text and the world of a call that returned. *)
Lemma parse_result_cached X path uc w text st :
  (parse_file_by_type X path uc w).1 = Ok (text, st) →
  cached_as X (fs w) path (text, st) (parse_file_by_type X path uc w).2.
Proof.
  intros E. pose proof (ensures_parse_file_by_type X (fs w) path uc w eq_refl) as H.
  destruct (parse_file_by_type X path uc w) as [[r|e] w1]; simpl in *; [|done].
  by injection E as ->.
Qed.

(** X6: whenever [parse_file_by_type] returns, by a cache hit, after a
    parse, after a fall-back or through the handler of the duplicate key,
    the [file_hash] of its status is the digest of the bytes of the file,
    and the text it returns is the [md] of the record that a lookup of that
    digest selects in the collection it leaves. *)
Theorem parse_returns_what_is_cached X path uc w text st :
  (parse_file_by_type X path uc w).1 = Ok (text, st) →
  ∃ f d, fs w !! path = Some f
    ∧ st !! "file_hash" = Some (VStr (sha256 X (f_bytes f)))
    ∧ List.find (has_hash (sha256 X (f_bytes f)))
        (coll (parse_file_by_type X path uc w).2) = Some d
    ∧ md d = text.
Proof. apply parse_result_cached. Qed.

Lemma parse_returns_what_is_cached_witness :
  ∃ f d, fs demo_world !! "in/bad.json" = Some f
    ∧ not_cached "d5-572" !! "file_hash" = Some (VStr (sha256 demo_X (f_bytes f)))
    ∧ List.find (has_hash (sha256 demo_X (f_bytes f)))
        (coll (parse_file_by_type demo_X "in/bad.json" true demo_world).2) = Some d
    ∧ md d = lit "```json" ++ nl ++ lit "{oops" ++ nl ++ fence.
Proof.
  apply (parse_returns_what_is_cached demo_X "in/bad.json" true demo_world
           (lit "```json" ++ nl ++ lit "{oops" ++ nl ++ fence) (not_cached "d5-572")).
  vm_compute. reflexivity.
Defined.

(** ** One record for one content *)

(** X7: after a call of [parse_file_by_type] that returned a text, a call
    with [use_cache = true] on any file with the same bytes, under the same
    path or another one and with any extension, returns that same text and
    leaves the collection as it is, as long as the server answers. *)
Theorem same_bytes_same_text X path path2 uc w text st f f2 :
  server_up w →
  (parse_file_by_type X path uc w).1 = Ok (text, st) →
  fs w !! path = Some f → fs w !! path2 = Some f2 → f_bytes f2 = f_bytes f →
  let w1 := (parse_file_by_type X path uc w).2 in
  ∃ st', (parse_file_by_type X path2 true w1).1 = Ok (text, st')
    ∧ coll (parse_file_by_type X path2 true w1).2 = coll w1.
Proof.
  intros Hup Hr Hf Hf2 Hb w1.
  destruct (parse_result_cached X path uc w text st Hr) as (f' & d & Hf' & _ & Hd & Hmd).
  simpl in Hmd. rewrite Hf in Hf'. injection Hf' as <-. fold w1 in Hd.
  assert (fs w1 !! path2 = Some f2) as Hf2' by (unfold w1; by rewrite parse_keeps_fs).
  assert (server_up w1) as Hup' by by apply parse_keeps_server_up.
  rewrite <- Hb in Hd.
  destruct (decide (lower (splitext_ext path2) ∈ parser_extensions)) as [Hext|Hext].
  - rewrite (dispatch_hit X path2 w1 f2 d Hext Hf2' Hup' Hd). simpl.
    rewrite Hmd. eauto.
  - destruct (plain_branch_ignores_use_cache X path2 true w1 f2 d Hext Hf2' Hup' Hd)
      as (w2 & -> & _ & Hc). simpl. rewrite Hmd. eauto.
Qed.

Lemma same_bytes_same_text_witness :
  let w1 := (parse_file_by_type demo_X "in/notes.txt" true demo_world).2 in
  ∃ st', (parse_file_by_type demo_X "in/copy.txt" true w1).1 = Ok (lit "hi", st')
    ∧ coll (parse_file_by_type demo_X "in/copy.txt" true w1).2 = coll w1.
Proof.
  apply (same_bytes_same_text demo_X "in/notes.txt" "in/copy.txt" true demo_world
           (lit "hi") (not_cached "d2-209")
           {| f_bytes := [104; 105]; f_mtime := 7 |}
           {| f_bytes := [104; 105]; f_mtime := 12 |}).
  - apply Forall_nil_2.
  - vm_compute. reflexivity.
  - reflexivity.
  - reflexivity.
  - reflexivity.
Defined.

(** ** The records of the index and the documents of the collection *)

Section Backed.
Context (X : externals) (C : config).

Lemma backed_snoc c d r :
  backed X C c r → backed X C (c ++ [d]) r.
Proof.
  intros (h & d0 & Hh & Hf & Hi & Hs & Hd). exists h, d0.
  repeat split; try done. by apply find_snoc_found.
Qed.

Lemma all_backed_snoc (l : list chunk) c d :
  Forall (backed X C c) l → existsb (has_hash (file_hash d)) c = false →
  has_type (meta d) = true → Forall (backed X C (c ++ [d])) l.
Proof. intros H _ _. eapply Forall_impl; [exact H|]. intros r. apply backed_snoc. Qed.

Lemma chunk_records_backed fname st c h d :
  startswith_dot fname = false →
  st !! "file_hash" = Some (VStr h) →
  List.find (has_hash h) c = Some d →
  Forall (backed X C c)
    (chunk_records fname st (split_text X (CHUNK_SIZE C) (CHUNK_OVERLAP C) (md d))).
Proof.
  intros Hdot Hst Hf. apply Forall_lookup_2. intros i r Hr.
  unfold chunk_records in Hr. rewrite list_lookup_imap in Hr.
  destruct (split_text X _ _ (md d) !! i) as [t|] eqn:E; [|done].
  injection Hr as <-. exists h, d. simpl. rewrite Nat2Z.id.
  repeat split; try done. lia.
Qed.

Lemma ingest_files_backed root files acc w :
  ∃ new, (ingest_files X C root files acc w).1 = Ok (acc ++ new)
    ∧ Forall (backed X C (coll (ingest_files X C root files acc w).2)) new.
Proof.
  revert acc w. induction files as [|fname rest IH]; intros acc w; simpl.
  - exists []. by rewrite app_nil_r.
  - destruct (startswith_dot fname) eqn:Hdot; [apply IH|].
    unfold mbind, M_bind, bind, attempt, emit.
    set (w0 := set_log _ w).
    pose proof (parse_result_cached X (path_join root fname) true w0) as Hc.
    destruct (parse_file_by_type X (path_join root fname) true w0)
      as [[[text st]|e] w1]; simpl in *; [|apply IH].
    destruct (Hc text st eq_refl) as (f & d & _ & Hst & Hd & Hmd).
    simpl in Hst, Hd, Hmd. subst text.
    set (here := chunk_records fname st _).
    set (w2 := set_log _ w1).
    destruct (IH (acc ++ here) w2) as (new & -> & Hnew).
    exists (here ++ new). split; [by rewrite app_assoc|].
    apply Forall_app. split; [|done].
    apply (coll_inv_ingest_files X C (λ c, Forall (backed X C c) here)
             (all_backed_snoc here) root rest (acc ++ here) w2).
    by apply (chunk_records_backed fname st (coll w1) (sha256 X (f_bytes f)) d).
Qed.

Lemma ingest_walk_backed dirs acc w :
  ∃ new, (ingest_walk X C dirs acc w).1 = Ok (acc ++ new)
    ∧ Forall (backed X C (coll (ingest_walk X C dirs acc w).2)) new.
Proof.
  revert acc w. induction dirs as [|[root files] rest IH]; intros acc w; simpl.
  - exists []. by rewrite app_nil_r.
  - unfold mbind, M_bind, bind.
    destruct (ingest_files_backed root files acc w) as (here & Hr & Hhere).
    destruct (ingest_files X C root files acc w) as [[recs|e] w1]; simpl in *; [|done].
    injection Hr as ->.
    destruct (IH (acc ++ here) w1) as (new & -> & Hnew).
    exists (here ++ new). split; [by rewrite app_assoc|].
    apply Forall_app. split; [|done].
    by apply (coll_inv_ingest_walk X C (λ c, Forall (backed X C c) here)
                (all_backed_snoc here) rest (acc ++ here) w1).
Qed.

Lemma winv_ingest_files (I : world → Prop) root files acc :
  (∀ w e, I w → I (set_log (log w ++ [e]) w)) →
  (∀ w x r, I w → faults w = x :: r → I (set_faults r w)) →
  (∀ w c, I w → I (set_coll c w)) →
  winv I (ingest_files X C root files acc).
Proof.
  intros Hl Hp Hc. revert acc.
  induction files as [|fname rest IH]; intros acc; simpl; [apply winv_ret|].
  destruct (startswith_dot fname); [apply IH|].
  apply winv_bind.
  - apply winv_attempt, winv_bind; [by apply winv_emit | intros _].
    by apply winv_parse_file_by_type.
  - intros [[text st]|e]; [|apply IH].
    apply winv_bind; [by apply winv_emit | intros _; apply IH].
Qed.

Lemma winv_ingest_walk (I : world → Prop) dirs acc :
  (∀ w e, I w → I (set_log (log w ++ [e]) w)) →
  (∀ w x r, I w → faults w = x :: r → I (set_faults r w)) →
  (∀ w c, I w → I (set_coll c w)) →
  winv I (ingest_walk X C dirs acc).
Proof.
  intros Hl Hp Hc. revert acc.
  induction dirs as [|[root files] rest IH]; intros acc; simpl; [apply winv_ret|].
  apply winv_bind; [by apply winv_ingest_files | intros acc'; apply IH].
Qed.

(** X8: whatever the files, the libraries and the server do, the records
    that [build_or_load_vectorstore] adds come after the records the index
    had, and each of them belongs to a document of the collection: it
    carries the digest of a record the lookup selects, its text is the chunk
    with its [chunk_id], counted from 0, in the split of that record's [md],
    and the name of its source does not start with a dot. *)
Theorem bootstrap_adds_backed_records dir w :
  ∃ new, index (build_or_load_vectorstore X C dir w).2 = index w ++ new
    ∧ Forall (backed X C (coll (build_or_load_vectorstore X C dir w).2)) new.
Proof.
  unfold build_or_load_vectorstore.
  destruct (has_content_world w) as (b & Hb).
  erewrite bind_ok by exact Hb. set (w1 := set_log _ w).
  destruct b; simpl.
  { exists []. by rewrite app_nil_r. }
  unfold mbind, M_bind, bind, lift. simpl.
  destruct (new_splitter X (CHUNK_SIZE C) (CHUNK_OVERLAP C)) as [[]|e]; simpl.
  2: { exists []. by rewrite app_nil_r. }
  destruct (ingest_walk_backed (os_walk X (fs w) dir) [] w1) as (new & Hr & Hnew).
  pose proof (winv_ingest_walk (λ w', index w' = index w) (os_walk X (fs w) dir) [] 
                ltac:(done) ltac:(done) ltac:(done) w1 eq_refl) as Hi.
  destruct (ingest_walk X C (os_walk X (fs w) dir) [] w1) as [[recs|e] w2];
    simpl in *; [|done].
  injection Hr as ->. exists new. destruct new as [|r new]; simpl.
  - by rewrite app_nil_r.
  - by rewrite Hi.
Qed.
End Backed.

(** ** A record that is there stays the answer *)



(** ** A directory without a file to ingest *)

Section Nothing_to_ingest.
Context (X : externals) (C : config).

Lemma ingest_files_dot_files root files acc w :
  Forall (λ fname, startswith_dot fname = true) files →
  ingest_files X C root files acc w = (Ok acc, w).
Proof.
  induction 1 as [|fname rest Hd _ IH]; simpl; [done|]. by rewrite Hd.
Qed.

Lemma ingest_walk_dot_files dirs acc w :
  Forall (λ d, Forall (λ fname, startswith_dot fname = true) d.2) dirs →
  ingest_walk X C dirs acc w = (Ok acc, w).
Proof.
  induction 1 as [|[root files] rest Hd _ IH]; simpl; [done|].
  erewrite bind_ok by by apply ingest_files_dot_files. exact IH.
Qed.

(** X10: when the walk of the input directory lists no file, or only files
    whose names start with a dot, and the splitter accepts the
    configuration, [build_or_load_vectorstore] probes the index and does
    nothing else: no file is opened, the collection and the index stay as
    they are and [add_texts] is not called, whether the index was empty or
    not and whether the probe answered or raised. *)
Theorem nothing_to_ingest dir w :
  new_splitter X (CHUNK_SIZE C) (CHUNK_OVERLAP C) = Ok () →
  Forall (λ d, Forall (λ fname, startswith_dot fname = true) d.2) (os_walk X (fs w) dir) →
  build_or_load_vectorstore X C dir w = (Ok (), set_log (log w ++ [EvProbe]) w).
Proof.
  intros En Hd. unfold build_or_load_vectorstore.
  destruct (has_content_world w) as (b & Hb).
  erewrite bind_ok by exact Hb.
  destruct b; simpl; [done|].
  rewrite En.
  erewrite bind_ok by reflexivity. simpl.
  erewrite bind_ok by reflexivity. simpl.
  erewrite bind_ok by by apply ingest_walk_dot_files. done.
Qed.
End Nothing_to_ingest.

Lemma nothing_to_ingest_witness :
  build_or_load_vectorstore demo_X2 demo_C "in" demo_world
  = (Ok (), set_log (log demo_world ++ [EvProbe]) demo_world).
Proof.
  apply (nothing_to_ingest demo_X2 demo_C "in" demo_world); [reflexivity|]. simpl.
  repeat constructor.
Defined.

(** ** The branches of the parsers that are not fall-backs *)

Section Branches.
Context (X : externals).

Ltac prelude uc :=
  mstep ltac:(by eapply exists_ok);
  mstep ltac:(by eapply sha256_of_file_ok);
  mstep ltac:(by eapply cache_hit_miss).

Ltac store uc :=
  unfold upsert;
  mstep ltac:(eapply upsert_fresh; [ simpl; mfacts | apply (missed_up uc); done
                                   | unfold fresh; simpl; rewrite missed_coll; done ]).

(** X11: when the extraction service fails on a PDF that is not cached, the
    parser raises the error of the service; there is no fall-back to the
    raw file and no record is stored. *)
Theorem pdf_service_error_propagates path uc w f e :
  fs w !! path = Some f →
  llama_parse X path (f_bytes f) = Raise e →
  server_up w →
  fresh (sha256 X (f_bytes f)) w →
  (parse_pdf_document X path uc w).1 = Raise e
  ∧ coll (parse_pdf_document X path uc w).2 = coll w.
Proof.
  intros E Hl Hup Hf. unfold parse_pdf_document. prelude uc.
  mstep ltac:(eapply open_ok; mfacts).
  mstep ltac:(apply emit_ok).
  erewrite bind_raise by (unfold lift; rewrite Hl; reflexivity).
  simpl. by rewrite missed_coll.
Qed.

(** X12: when the service returns the pages of a PDF that is not cached, the
    text is the pages joined by a blank line, and the record that is stored
    has the metadata [type: pdf] and the number of pages. *)
Theorem pdf_pages_joined path uc w f pages :
  fs w !! path = Some f →
  llama_parse X path (f_bytes f) = Ok pages →
  server_up w →
  fresh (sha256 X (f_bytes f)) w →
  ∃ d st, (parse_pdf_document X path uc w).1 = Ok (join (nl ++ nl) pages, st)
    ∧ coll (parse_pdf_document X path uc w).2 = coll w ++ [d]
    ∧ md d = join (nl ++ nl) pages
    ∧ meta d = {[ "type" := VStr "pdf"; "pages" := VInt (len pages) ]}.
Proof.
  intros E Hl Hup Hf. eexists (new_doc X path _ _ (Some _) f (now w)), _.
  unfold parse_pdf_document. prelude uc.
  mstep ltac:(eapply open_ok; mfacts).
  mstep ltac:(apply emit_ok).
  mstep ltac:(unfold lift; rewrite Hl; reflexivity).
  store uc. simpl. rewrite missed_coll, missed_now. done.
Qed.

(** X13: when [json.load] succeeds on a file that is not cached, the text
    is the pretty-printed payload between the fences, whole: [max_chars]
    bounds the fall-back only, and the call gives the same text for every
    value of it. *)
Theorem json_success_is_not_truncated path uc max_chars w f pretty :
  fs w !! path = Some f →
  json_pretty X (text_of f) = Ok pretty →
  server_up w →
  fresh (sha256 X (f_bytes f)) w →
  (parse_json_document X path uc max_chars w).1
  = Ok (lit "```json" ++ nl ++ pretty ++ nl ++ fence, not_cached (sha256 X (f_bytes f))).
Proof.
  intros E Hj Hup Hf. unfold parse_json_document. prelude uc.
  mstep ltac:(eapply open_ok; mfacts).
  mstep ltac:(apply emit_ok).
  rewrite Hj. cbn beta iota.
  mstep ltac:(apply mret_ok).
  store uc. reflexivity.
Qed.

(** X14: for a CSV file that pandas reads and that is not cached, the text
    is the schema section, one line per column with its dtype, followed by
    the preview of the first [max_rows_preview] rows: the markdown table,
    or the JSON records when the markdown rendering raises.  The record
    stored has [type: csv] with the numbers of rows and columns of the
    whole table. *)
Theorem csv_schema_and_preview path uc n w f df table :
  fs w !! path = Some f →
  read_csv X path (f_bytes f) = Ok df →
  match df_to_markdown df n with
  | Ok t => Ok t
  | Raise _ => df_to_json df n
  end = Ok table →
  server_up w →
  fresh (sha256 X (f_bytes f)) w →
  let text := lit "### Schema" ++ nl ++ nl ++ join nl (map schema_line (df_columns df))
              ++ nl ++ nl ++ lit "### Preview (first rows)" ++ nl ++ nl ++ table in
  ∃ d st, (parse_csv_document X path uc n w).1 = Ok (text, st)
    ∧ st !! "rows" = Some (VInt (df_rows df))
    ∧ coll (parse_csv_document X path uc n w).2 = coll w ++ [d]
    ∧ md d = text
    ∧ meta d = {[ "type" := VStr "csv"; "rows" := VInt (df_rows df);
                  "cols" := VInt (len (df_columns df)) ]}.
Proof.
  intros E Hr Ht Hup Hf text. eexists (new_doc X path _ _ (Some _) f (now w)), _.
  unfold parse_csv_document. prelude uc.
  mstep ltac:(eapply attempt_eq, bind_ok_then;
                [ eapply open_ok; mfacts
                | eapply bind_ok_then; [apply emit_ok | unfold lift; by rewrite Hr]]).
  assert ((match df_to_markdown df n with
           | Ok t => mret t
           | Raise _ => lift (df_to_json df n)
           end : M pystr) = mret table) as ->.
  { destruct (df_to_markdown df n); [by injection Ht as -> | by rewrite Ht]. }
  mstep ltac:(apply mret_ok).
  store uc. simpl. rewrite missed_coll, missed_now.
  unfold text. rewrite <- !app_assoc. done.
Qed.

(** X15: a file with any other extension that is not cached is stored as the
    first 200000 characters of its text, as they are, with [type:
    txt_or_other]. *)
Theorem other_extension_stores_prefix path uc w f :
  lower (splitext_ext path) ∉ parser_extensions →
  fs w !! path = Some f →
  server_up w →
  fresh (sha256 X (f_bytes f)) w →
  let text := take (Z.to_nat 200000) (text_of f) in
  ∃ d, (parse_file_by_type X path uc w).1 = Ok (text, not_cached (sha256 X (f_bytes f)))
    ∧ len text ≤ 200000
    ∧ coll (parse_file_by_type X path uc w).2 = coll w ++ [d]
    ∧ md d = text
    ∧ meta d = {[ "type" := VStr "txt_or_other" ]}.
Proof.
  intros Hext E Hup Hf text.
  destruct (not_parser_extension _ Hext) as (E1 & E2 & E3 & E4 & E5).
  eexists (new_doc X path _ _ (Some _) f (now w)).
  unfold parse_file_by_type. rewrite E1, E2, E3, E4, E5. simpl.
  mstep ltac:(by eapply read_text_ok).
  mstep ltac:(by eapply sha256_of_file_ok).
  unfold upsert.
  mstep ltac:(by eapply upsert_fresh).
  rewrite read_chars_nonneg by done. simpl.
  repeat split; try done. by apply len_take_le.
Qed.
End Branches.

Lemma pdf_service_error_propagates_witness :
  (parse_pdf_document demo_X2 "in/notes.txt" true demo_world).1 = Raise (ServiceError "503")
  ∧ coll (parse_pdf_document demo_X2 "in/notes.txt" true demo_world).2 = coll demo_world.
Proof.
  apply (pdf_service_error_propagates demo_X2 "in/notes.txt" true demo_world
           {| f_bytes := [104; 105]; f_mtime := 7 |}).
  - reflexivity.
  - reflexivity.
  - apply Forall_nil_2.
  - reflexivity.
Defined.

Lemma pdf_pages_joined_witness :
  ∃ d st,
    (parse_pdf_document demo_X "in/notes.txt" true demo_world).1
    = Ok (join (nl ++ nl) [lit "page one"; lit "page two"], st)
    ∧ coll (parse_pdf_document demo_X "in/notes.txt" true demo_world).2 = coll demo_world ++ [d]
    ∧ md d = join (nl ++ nl) [lit "page one"; lit "page two"]
    ∧ meta d = {[ "type" := VStr "pdf"; "pages" := VInt (len [lit "page one"; lit "page two"]) ]}.
Proof.
  apply (pdf_pages_joined demo_X "in/notes.txt" true demo_world
           {| f_bytes := [104; 105]; f_mtime := 7 |}).
  - reflexivity.
  - reflexivity.
  - apply Forall_nil_2.
  - reflexivity.
Defined.

Lemma json_success_is_not_truncated_witness :
  (parse_json_document demo_X2 "in/bad.json" true 2 demo_world).1
  = Ok (lit "```json" ++ nl ++ lit "{oops" ++ nl ++ fence, not_cached "d5-572").
Proof.
  apply (json_success_is_not_truncated demo_X2 "in/bad.json" true 2 demo_world
           {| f_bytes := [123; 111; 111; 112; 115]; f_mtime := 9 |}).
  - reflexivity.
  - reflexivity.
  - apply Forall_nil_2.
  - reflexivity.
Defined.

Lemma csv_schema_and_preview_witness :
  let text := lit "### Schema" ++ nl ++ nl ++ join nl (map schema_line (df_columns demo_df))
              ++ nl ++ nl ++ lit "### Preview (first rows)" ++ nl ++ nl ++ lit "[]" in
  ∃ d st, (parse_csv_document demo_X2 "in/t.csv" true 500 demo_world).1 = Ok (text, st)
    ∧ st !! "rows" = Some (VInt (df_rows demo_df))
    ∧ coll (parse_csv_document demo_X2 "in/t.csv" true 500 demo_world).2 = coll demo_world ++ [d]
    ∧ md d = text
    ∧ meta d = {[ "type" := VStr "csv"; "rows" := VInt (df_rows demo_df);
                  "cols" := VInt (len (df_columns demo_df)) ]}.
Proof.
  apply (csv_schema_and_preview demo_X2 "in/t.csv" true 500 demo_world
           {| f_bytes := [97; 44; 195; 169; 10]; f_mtime := 8 |} demo_df (lit "[]")).
  - reflexivity.
  - reflexivity.
  - reflexivity.
  - apply Forall_nil_2.
  - reflexivity.
Defined.

Lemma other_extension_stores_prefix_witness :
  let text := take (Z.to_nat 200000)
                (text_of {| f_bytes := [104; 105]; f_mtime := 7 |}) in
  ∃ d, (parse_file_by_type demo_X "in/notes.txt" true demo_world).1
       = Ok (text, not_cached (sha256 demo_X [104; 105]))
    ∧ len text ≤ 200000
    ∧ coll (parse_file_by_type demo_X "in/notes.txt" true demo_world).2 = coll demo_world ++ [d]
    ∧ md d = text
    ∧ meta d = {[ "type" := VStr "txt_or_other" ]}.
Proof.
  apply (other_extension_stores_prefix demo_X "in/notes.txt" true demo_world
           {| f_bytes := [104; 105]; f_mtime := 7 |}).
  - apply (bool_decide_unpack _). vm_compute. exact I.
  - reflexivity.
  - apply Forall_nil_2.
  - reflexivity.
Defined.

(** ** The size of the text of a page *)

Lemma html_clean_cases max_chars text :
  0 ≤ max_chars →
  len (html_clean max_chars text) ≤ max_chars
  ∨ ∃ p, html_clean max_chars text = p ++ nl ++ truncated_marker ∧ len p = max_chars.
Proof.
  intros Hn. unfold html_clean.
  set (tc := join (nl ++ nl) _).
  destruct (len tc <=? max_chars) eqn:E.
  - left. by apply Z.leb_le.
  - right. apply Z.leb_gt in E. exists (take (Z.to_nat max_chars) tc).
    unfold slice_to. rewrite (proj2 (Z.leb_le 0 max_chars)) by done.
    split; [done|]. unfold len in *. rewrite length_take. lia.
Qed.

(** X16: the text the HTML parser makes of a page that is not cached has at
    most [max_chars] characters, or it is exactly [max_chars] characters
    followed by the 14 characters of "\n\n...truncated": the bound of the
    stored text is [max_chars + 14], not [max_chars]. *)
Theorem html_text_is_bounded X path uc max_chars w f t :
  fs w !! path = Some f →
  0 ≤ max_chars →
  server_up w →
  fresh (sha256 X (f_bytes f)) w →
  text_of_result (parse_html_document X path uc max_chars w).1 = Ok t →
  len t ≤ max_chars + 14
  ∧ (max_chars < len t →
     ∃ p, t = p ++ nl ++ truncated_marker ∧ len p = max_chars).
Proof.
  intros E Hn Hup Hf Ht.
  rewrite (parse_html_miss X path uc max_chars w f) in Ht by done.
  destruct (soup_get_text X _) as [t0|e]; [|done]. injection Ht as <-.
  destruct (html_clean_cases max_chars t0 Hn) as [Hle|(p & Hp & Hl)].
  - split; [lia|]. intros Hgt. lia.
  - split; [|by eauto]. rewrite Hp. unfold len in *.
    rewrite !length_app. simpl. lia.
Qed.

Lemma html_text_is_bounded_witness :
  len (lit "a" ++ nl ++ nl ++ nl ++ truncated_marker) ≤ 3 + 14
  ∧ (3 < len (lit "a" ++ nl ++ nl ++ nl ++ truncated_marker) →
     ∃ p, lit "a" ++ nl ++ nl ++ nl ++ truncated_marker = p ++ nl ++ truncated_marker
          ∧ len p = 3).
Proof.
  apply (html_text_is_bounded demo_X "in/two.html" true 3 two_lines_world
           {| f_bytes := [97; 10; 98]; f_mtime := 2 |}).
  - reflexivity.
  - lia.
  - apply Forall_nil_2.
  - reflexivity.
  - vm_compute. reflexivity.
Defined.

(** ** The query, whatever the index and the agent do *)

Section Query_phase.
Context (X : externals) (C : config).

(** The five ways through the query phase. *)
Lemma query_phase_cases line w :
  let q := strip line in
  let asked := log w ++ [EvPrint (lit "Please Enter the user query below..." ++ nl ++ lit "> ")] in
  (nonempty q = false
   ∧ query_phase X C line w
     = (Ok (), set_log (asked ++ [EvPrint (lit "No query provided. Exiting.")]) w))
  ∨ (nonempty q = true ∧ ∃ e,
       similarity_search X (index w) q (TOP_K C) = Raise e
       ∧ query_phase X C line w
         = (Ok (), set_log ((((asked ++ [EvSearch q])
                              ++ [EvPrint (lit "Error during query:")])
                              ++ [EvPrint (lit (str_of_exn e))])) w))
  ∨ (nonempty q = true
     ∧ similarity_search X (index w) q (TOP_K C) = Ok []
     ∧ query_phase X C line w
       = (Ok (), set_log ((asked ++ [EvSearch q]) ++ [EvPrint not_found]) w))
  ∨ (nonempty q = true ∧ ∃ results,
       results ≠ []
       ∧ similarity_search X (index w) q (TOP_K C) = Ok results
       ∧ let prompt := prompt_of (build_context_snippets results 2000) q in
         let invoked := ((asked ++ [EvSearch q])
                         ++ [EvPrint (lit "context for the query :  " ++ q)])
                        ++ [EvInvoke prompt] in
         (∃ answer, agent_invoke X prompt = Ok answer
            ∧ query_phase X C line w = (Ok (), set_log (invoked ++ [EvPrint answer]) w))
         ∨ (∃ e, agent_invoke X prompt = Raise e
              ∧ query_phase X C line w
                = (Ok (), set_log ((invoked ++ [EvPrint (lit "Error during query:")])
                                   ++ [EvPrint (lit (str_of_exn e))]) w))).
Proof.
  cbv zeta. unfold query_phase, try_except, ask.
  erewrite bind_ok by apply emit_ok. cbn beta iota zeta.
  destruct (nonempty (strip line)) eqn:Hq; cbn [negb]; [|left; split; [done | reflexivity]].
  right. erewrite bind_ok by apply emit_ok.
  destruct (similarity_search X (index w) (strip line) (TOP_K C)) as [results|e] eqn:Hs.
  - right. erewrite bind_ok by (unfold act; simpl; rewrite Hs; reflexivity).
    destruct results as [|r results]; cbn [negb nonempty].
    { left. split; [done|]. split; [done|]. reflexivity. }
    right. split; [done|]. exists (r :: results). split; [done|]. split; [done|].
    cbn zeta.
    erewrite bind_ok by apply emit_ok. cbn zeta.
    erewrite bind_ok by apply emit_ok. cbn zeta.
    destruct (agent_invoke X (prompt_of (build_context_snippets (r :: results) 2000)
                                (strip line)))
      as [answer|e] eqn:Ha.
    + left. exists answer. split; [done|].
      erewrite bind_ok by reflexivity. reflexivity.
    + right. exists e. split; [done|].
      erewrite bind_raise by reflexivity. reflexivity.
  - left. split; [done|]. exists e. split; [done|].
    erewrite bind_raise by (unfold act; simpl; rewrite Hs; reflexivity). reflexivity.
Qed.

(** X17: the query phase returns normally in every case: an exception of
    the search or of the agent is printed by the handler of line 133 and
    goes no further. *)
Theorem query_phase_never_raises line w :
  (query_phase X C line w).1 = Ok ().
Proof.
  destruct (query_phase_cases line w)
    as [[_ ->]|[(_ & e & _ & ->)|[(_ & _ & ->)|(_ & rs & _ & _ & [(a & _ & ->)|(e & _ & ->)])]]];
    reflexivity.
Qed.

(** X18: a line that is empty once stripped of white space gets the answer
    "No query provided. Exiting."; the index is not searched and the agent
    is not invoked. *)
Theorem blank_query_is_not_searched line w :
  nonempty (strip line) = false →
  query_phase X C line w
  = (Ok (), set_log ((log w ++ [EvPrint (lit "Please Enter the user query below..."
                                        ++ nl ++ lit "> ")])
                     ++ [EvPrint (lit "No query provided. Exiting.")]) w).
Proof.
  intros Hq.
  destruct (query_phase_cases line w)
    as [[_ ->]|[(Hq' & _)|[(Hq' & _)|(Hq' & _)]]]; [done|congruence..].
Qed.

(** X19: the agent is invoked at most once in a query phase, and only after
    a search that returned at least one chunk; the prompt is the one built
    from those chunks, each cut at 2000 characters, and the stripped
    query. *)
Theorem agent_is_invoked_with_context line w p :
  EvInvoke p ∈ log (query_phase X C line w).2 →
  EvInvoke p ∉ log w →
  ∃ results, results ≠ []
    ∧ similarity_search X (index w) (strip line) (TOP_K C) = Ok results
    ∧ p = prompt_of (build_context_snippets results 2000) (strip line).
Proof.
  intros Hin Hnew.
  destruct (query_phase_cases line w)
    as [[_ E]|[(_ & e & _ & E)|[(_ & _ & E)|(_ & rs & Hne & Hs & [(a & _ & E)|(e & _ & E)])]]];
    rewrite E in Hin; simpl in Hin;
    repeat (apply elem_of_app in Hin as [Hin|Hin];
            [|apply list_elem_of_singleton in Hin; try discriminate]);
    try done.
  - injection Hin as ->. eauto.
  - injection Hin as ->. eauto.
Qed.

(** X20: [main] hands [build_or_load_vectorstore] two arguments and the
    function takes one, so every run of [main] stops at that call: it
    returns normally after two printed lines, and it has not probed the
    index, opened a file, touched the collection, created the agent or read
    the query. *)
Theorem main_stops_before_ingestion line w :
  (main X C line w).1 = Ok ()
  ∧ coll (main X C line w).2 = coll w
  ∧ index (main X C line w).2 = index w
  ∧ ∃ out, log (main X C line w).2
           = log w ++ [EvPrint (lit "[start] building/loading vectorstore...");
                       EvPrint (lit "Vectorstore init failed: " ++ out)].
Proof.
  rewrite main_returns_at_the_build_call. simpl.
  repeat split; try done. eexists. by rewrite <- app_assoc.
Qed.
End Query_phase.

Lemma blank_query_is_not_searched_witness :
  query_phase demo_X demo_C (lit "   ") demo_world
  = (Ok (), set_log ((log demo_world ++ [EvPrint (lit "Please Enter the user query below..."
                                                  ++ nl ++ lit "> ")])
                     ++ [EvPrint (lit "No query provided. Exiting.")]) demo_world).
Proof. apply (blank_query_is_not_searched demo_X demo_C (lit "   ") demo_world). reflexivity. Defined.

Lemma no_invoke_in (l : list event) p :
  existsb is_invoke l = false → EvInvoke p ∉ l.
Proof.
  intros Hl Hin. apply list_elem_of_In in Hin.
  assert (existsb is_invoke l = true); [|congruence].
  apply existsb_exists. by exists (EvInvoke p).
Qed.

Lemma agent_is_invoked_with_context_witness :
  let w := (build_or_load_vectorstore demo_X demo_C "in" demo_world).2 in
  let p := prompt_of (build_context_snippets (index w) 2000) (lit "hi") in
  ∃ results, results ≠ []
    ∧ similarity_search demo_X (index w) (strip (lit " hi ")) (TOP_K demo_C) = Ok results
    ∧ p = prompt_of (build_context_snippets results 2000) (strip (lit " hi ")).
Proof.
  intros w p.
  apply (agent_is_invoked_with_context demo_X demo_C (lit " hi ") w p).
  - apply list_elem_of_In. vm_compute. do 15 right. left. reflexivity.
  - apply no_invoke_in. vm_compute. reflexivity.
Defined.

(** ** A lookup that fails is not a miss *)

Section Lookup_failure.
Context (X : externals).

Lemma cache_hit_store_failure h msg r w :
  faults w = Some msg :: r →
  cache_hit true h w
  = (Raise (PyMongoError msg), set_faults r (set_log (log w ++ [EvFind h]) w)).
Proof.
  intros Hfl. unfold cache_hit, get_cached_parse, find_one.
  erewrite bind_raise; [reflexivity|].
  erewrite bind_ok by apply emit_ok. unfold store_call. simpl. by rewrite Hfl.
Qed.

Ltac failed_lookup :=
  mstep ltac:(by eapply exists_ok);
  mstep ltac:(by eapply sha256_of_file_ok);
  erewrite bind_raise by (by apply cache_hit_store_failure);
  reflexivity.

(** X21: when the server fails on the lookup of the cache check, the call
    raises that error: the failure is not taken for a miss, no library is
    called on the file and nothing is stored. *)
Theorem lookup_failure_propagates path w f msg r :
  lower (splitext_ext path) ∈ parser_extensions →
  fs w !! path = Some f →
  faults w = Some msg :: r →
  parse_file_by_type X path true w
  = (Raise (PyMongoError msg),
     set_faults r (set_log (log w ++ [EvFind (sha256 X (f_bytes f))]) w)).
Proof.
  intros Hext E Hfl. unfold parse_file_by_type, parser_extensions in *.
  repeat (apply elem_of_cons in Hext as [->|Hext]); simpl;
    [ unfold parse_pdf_document | unfold parse_csv_document | unfold parse_json_document
    | unfold parse_html_document | unfold parse_html_document
    | by apply elem_of_nil in Hext ];
    failed_lookup.
Qed.
End Lookup_failure.

Lemma lookup_failure_propagates_witness :
  parse_file_by_type demo_X "in/bad.json" true demo_world_refusing
  = (Raise (PyMongoError "connection refused"),
     set_faults [] (set_log (log demo_world_refusing ++ [EvFind (sha256 demo_X [123; 111; 111; 112; 115])])
                      demo_world_refusing)).
Proof.
  apply (lookup_failure_propagates demo_X "in/bad.json" demo_world_refusing
           {| f_bytes := [123; 111; 111; 112; 115]; f_mtime := 9 |}).
  - apply (bool_decide_unpack _). vm_compute. exact I.
  - reflexivity.
  - reflexivity.
Defined.

(** ** Writers that race *)

Lemma unique_hashes_count h (c : list doc) :
  unique_hashes c → (length (List.filter (has_hash h) c) ≤ 1)%nat.
Proof.
  unfold unique_hashes. induction c as [|x c IH]; simpl; [lia|].
  intros Hn. apply NoDup_cons in Hn as [Hx Hn].
  destruct (has_hash h x) eqn:Hh; [|by apply IH].
  destruct (List.filter (has_hash h) c) as [|y l] eqn:E; simpl; [lia|].
  exfalso. apply Hx.
  assert (In y (List.filter (has_hash h) c)) as Hy by (rewrite E; by left).
  apply filter_In in Hy as [Hin Hy].
  apply String.eqb_eq in Hh, Hy. rewrite Hh, <- Hy.
  apply list_elem_of_fmap_2. by apply list_elem_of_In.
Qed.

(** X22: let any number of processes call [upsert_parsed_doc] for one
    digest, on a collection with the unique index, and let their round
    trips to the server interleave in any order, with any failures of the
    server.  At every moment the collection has at most one record of the
    digest, and every process that has returned a record has returned that
    one: the processes agree. *)
Theorem racing_writers_agree X hash ps sched w :
  unique_hashes (coll w) →
  Forall (λ p, ∃ path text meta0, p = Calling path hash text meta0) ps →
  let s' := run X sched (ps, w) in
  (length (List.filter (has_hash hash) (coll s'.2)) ≤ 1)%nat
  ∧ ∀ d, Returned (Ok d) ∈ s'.1 →
      file_hash d = hash ∧ d ∈ coll s'.2
      ∧ ∀ d', Returned (Ok d') ∈ s'.1 → d' = d.
Proof.
  intros Hu Hps s'.
  destruct (interleaved_upserts_agree X hash ps sched w Hu Hps) as [Hu' Hr].
  split; [by apply unique_hashes_count | exact Hr].
Qed.

Lemma racing_writers_agree_witness :
  let calls := [Calling "in/notes.txt" "d2-209" (lit "hi") None;
                Calling "in/copy.txt" "d2-209" (lit "hi") None] in
  let s' := run demo_X [0; 1; 1; 0; 0]%nat (calls, demo_world) in
  (length (List.filter (has_hash "d2-209") (coll s'.2)) ≤ 1)%nat
  ∧ ∀ d, Returned (Ok d) ∈ s'.1 →
      file_hash d = "d2-209" ∧ d ∈ coll s'.2
      ∧ ∀ d', Returned (Ok d') ∈ s'.1 → d' = d.
Proof.
  intros calls.
  apply (racing_writers_agree demo_X "d2-209" calls [0; 1; 1; 0; 0]%nat demo_world).
  - apply NoDup_nil_2.
  - repeat constructor; eauto.
Defined.

(** ** The context handed to the agent *)

Lemma join_app sep (a b : list pystr) :
  a ≠ [] → b ≠ [] → join sep (a ++ b) = join sep a ++ sep ++ join sep b.
Proof.
  intros Ha Hb. induction a as [|x a IH]; [done|].
  destruct a as [|y a].
  - simpl. by destruct b.
  - change (join sep ((x :: y :: a) ++ b)) with (x ++ sep ++ join sep ((y :: a) ++ b)).
    rewrite IH by done. change (join sep (x :: y :: a)) with (x ++ sep ++ join sep (y :: a)).
    by rewrite <- !app_assoc.
Qed.

(** X24: the context of a list of chunks is made chunk by chunk, in the
    order received: the context of two lists in a row is the context of the
    first, a newline, and the context of the second. *)
Theorem context_of_two_lists (a b : list chunk) limit :
  a ≠ [] → b ≠ [] →
  build_context_snippets (a ++ b) limit
  = build_context_snippets a limit ++ nl ++ build_context_snippets b limit.
Proof.
  intros Ha Hb. unfold build_context_snippets. rewrite map_app.
  apply join_app; by destruct a, b.
Qed.

Lemma context_of_two_lists_witness :
  let r := {| c_text := lit " hi "; c_source := "notes.txt";
              c_file_hash := Some (VStr "d2-209"); c_chunk_id := 0 |} in
  build_context_snippets ([r] ++ [r; r]) 2000
  = build_context_snippets [r] 2000 ++ nl ++ build_context_snippets [r; r] 2000.
Proof. intros r. apply (context_of_two_lists [r] [r; r] 2000); discriminate. Defined.

(** X25: in the context, the text of a chunk is stripped of the white space
    around it; when it then has more than [char_limit_per_chunk] characters
    it is cut to that many and followed by the 16 characters of
    "\n\n...[truncated]", so a chunk takes at most the limit plus 16
    characters after its header. *)
Theorem snippet_body_is_bounded limit (d : chunk) :
  0 ≤ limit →
  ∃ body,
    snippet limit d
    = lit "--- CONTEXT (file: " ++ lit (c_source d) ++ lit ", chunk: "
      ++ lit (pretty (c_chunk_id d)) ++ lit ") ---" ++ nl ++ body ++ nl
    ∧ len body ≤ limit + 16
    ∧ (len (strip (c_text d)) ≤ limit → body = strip (c_text d))
    ∧ (limit < len (strip (c_text d)) →
       body = take (Z.to_nat limit) (strip (c_text d)) ++ nl ++ nl ++ lit "...[truncated]").
Proof.
  intros Hl. unfold snippet.
  destruct (limit <? len (strip (c_text d))) eqn:E.
  - apply Z.ltb_lt in E. eexists. split; [reflexivity|].
    unfold slice_to. rewrite (proj2 (Z.leb_le 0 limit)) by done.
    split; [|split; [lia | done]].
    unfold len in *. rewrite !length_app, length_take. simpl. lia.
  - apply Z.ltb_ge in E. eexists. split; [reflexivity|].
    split; [lia|]. split; [done | lia].
Qed.

Lemma snippet_body_is_bounded_witness :
  let d := {| c_text := lit " hello "; c_source := "notes.txt";
              c_file_hash := Some (VStr "d2-209"); c_chunk_id := 3 |} in
  ∃ body,
    snippet 2 d
    = lit "--- CONTEXT (file: " ++ lit (c_source d) ++ lit ", chunk: "
      ++ lit (pretty (c_chunk_id d)) ++ lit ") ---" ++ nl ++ body ++ nl
    ∧ len body ≤ 2 + 16
    ∧ (len (strip (c_text d)) ≤ 2 → body = strip (c_text d))
    ∧ (2 < len (strip (c_text d)) →
       body = take (Z.to_nat 2) (strip (c_text d)) ++ nl ++ nl ++ lit "...[truncated]").
Proof. intros d. apply (snippet_body_is_bounded 2 d). lia. Defined.

(** ** Every listed file gets its turn *)

Section Every_file.
Context (X : externals) (C : config).

Lemma logged_stays_ingest_files e root files acc w :
  e ∈ log w → e ∈ log (ingest_files X C root files acc w).2.
Proof.
  apply (winv_ingest_files X C (λ w', e ∈ log w')); try done.
  intros w0 e0 H. simpl. apply elem_of_app. by left.
Qed.

Lemma logged_stays_ingest_walk e dirs acc w :
  e ∈ log w → e ∈ log (ingest_walk X C dirs acc w).2.
Proof.
  apply (winv_ingest_walk X C (λ w', e ∈ log w')); try done.
  intros w0 e0 H. simpl. apply elem_of_app. by left.
Qed.

Lemma logged_stays_parse e path uc w :
  e ∈ log w → e ∈ log (parse_file_by_type X path uc w).2.
Proof.
  apply (winv_parse_file_by_type X (λ w', e ∈ log w')); try done.
  intros w0 e0 H. simpl. apply elem_of_app. by left.
Qed.

Lemma ingest_files_announces root files acc w fname :
  fname ∈ files → startswith_dot fname = false →
  EvParseFile (path_join root fname) ∈ log (ingest_files X C root files acc w).2.
Proof.
  intros Hin Hdot. revert acc w.
  induction files as [|x rest IH]; intros acc w; [by apply elem_of_nil in Hin|].
  apply elem_of_cons in Hin as [<-|Hin].
  - simpl. rewrite Hdot. unfold mbind at 1, M_bind at 1, bind at 1, attempt.
    unfold mbind at 1, M_bind at 1, bind at 1, emit at 1.
    set (w0 := set_log _ w).
    assert (EvParseFile (path_join root fname) ∈ log w0) as H0.
    { simpl. apply elem_of_app. right. by apply list_elem_of_singleton. }
    apply (logged_stays_parse _ (path_join root fname) true) in H0.
    destruct (parse_file_by_type X (path_join root fname) true w0)
      as [[[text st]|e] w1]; simpl in *.
    + unfold mbind, M_bind, bind, emit. apply logged_stays_ingest_files.
      simpl. apply elem_of_app. by left.
    + by apply logged_stays_ingest_files.
  - simpl. destruct (startswith_dot x); [by apply IH|].
    unfold mbind at 1, M_bind at 1, bind at 1, attempt.
    destruct ((emit _ ≫= _) w) as [[[text st]|e] w1]; simpl.
    + unfold mbind, M_bind, bind, emit. by apply IH.
    + by apply IH.
Qed.

Lemma ingest_walk_announces dirs acc w root files fname :
  (root, files) ∈ dirs → fname ∈ files → startswith_dot fname = false →
  EvParseFile (path_join root fname) ∈ log (ingest_walk X C dirs acc w).2.
Proof.
  intros Hd Hin Hdot. revert acc w.
  induction dirs as [|[r fs0] rest IH]; intros acc w; [by apply elem_of_nil in Hd|].
  simpl. unfold mbind, M_bind, bind.
  destruct (ingest_files_returns X C r fs0 acc w) as (recs & w1 & E).
  apply elem_of_cons in Hd as [[= <- <-]|Hd].
  - pose proof (ingest_files_announces root files acc w fname Hin Hdot) as H.
    rewrite E in *. simpl in H. by apply logged_stays_ingest_walk.
  - rewrite E. by apply IH.
Qed.

(** X26: when the probe finds no record, or raises, and the splitter accepts
    the configuration, every file that the walk lists and whose name does
    not start with a dot is handed to [parse_file_by_type], under the path
    made of its directory and its name: a file that fails, be it the first,
    stops none of the others. *)
Theorem bootstrap_tries_every_file dir w root files fname :
  (has_content w).1 = Ok false →
  new_splitter X (CHUNK_SIZE C) (CHUNK_OVERLAP C) = Ok () →
  (root, files) ∈ os_walk X (fs w) dir →
  fname ∈ files →
  startswith_dot fname = false →
  EvParseFile (path_join root fname) ∈ log (build_or_load_vectorstore X C dir w).2.
Proof.
  intros Hc En Hd Hin Hdot.
  pose proof (build_after_the_probe X C dir w Hc) as H. rewrite En in H.
  destruct H as (recs & w1 & E & ->).
  pose proof (ingest_walk_announces (os_walk X (fs w) dir) []
                (set_log (log w ++ [EvProbe]) w) root files fname Hd Hin Hdot) as H.
  rewrite E in H. simpl in H.
  destruct recs; simpl; [done|]. apply elem_of_app. by left.
Qed.
End Every_file.

Lemma bootstrap_tries_every_file_witness :
  EvParseFile (path_join "in" "t.csv")
  ∈ log (build_or_load_vectorstore demo_X demo_C "in" demo_world_refusing).2.
Proof.
  apply (bootstrap_tries_every_file demo_X demo_C "in" demo_world_refusing
           "in" ["notes.txt"; ".hidden"; "t.csv"] "t.csv").
  - reflexivity.
  - reflexivity.
  - simpl. apply list_elem_of_here.
  - do 2 apply list_elem_of_further. apply list_elem_of_here.
  - reflexivity.
Defined.
